(** * The Kafka pub/sub adapter of components-contrib ([pubsub/kafka/kafka.go])

    A shallow embedding of the adapter and the properties its specification
    states about it.  The adapter is a thin binding over the sarama client:
    everything sarama does is a parameter of the development (the class
    [sarama.API]), and every call the adapter makes into it is recorded in a
    trace, so that "exactly one send", "no commit" and the like are statements
    about that trace. *)

From stdpp Require Import base option list strings gmap.
From Stdlib Require Import ZArith Ascii.

Set Warnings "-clear-no-such-hyp".

Local Open Scope Z_scope.
Local Open Scope string_scope.
Local Open Scope list_scope.

(** ** Go's [strings] package *)

Module GoStrings.

(** [strings.Split(s, sep)] for a one-byte separator, which is the only way
    the adapter calls it ([sep = ","]).  The result is never empty: a string
    without separator yields the one-element list holding that string, and
    the empty string yields the list holding the empty string. *)
Fixpoint Split (s : string) (sep : ascii) : list string :=
  match s with
  | EmptyString => [EmptyString]
  | String c rest =>
      if Ascii.eqb c sep then EmptyString :: Split rest sep
      else match Split rest sep with
           | [] => [String c EmptyString]
           | x :: xs => String c x :: xs
           end
  end.

(** [strings.Join(elems, sep)] for a one-byte separator. *)
Fixpoint Join (elems : list string) (sep : ascii) : string :=
  match elems with
  | [] => EmptyString
  | [x] => x
  | x :: rest => x +:+ String sep (Join rest sep)
  end.

(** [strings.IndexByte(s, c) < 0], as a boolean. *)
Fixpoint lacks (c : ascii) (s : string) : bool :=
  match s with
  | EmptyString => true
  | String d rest => negb (Ascii.eqb d c) && lacks c rest
  end.

End GoStrings.

(** ** The generic [pubsub] package *)

Module pubsub.

(** Modelled from the spec: the declarations of package [pubsub] are not
    part of the sources at hand.  The spec describes an outbound message as
    "topic name + opaque byte payload"; the adapter reads [req.Topic] and
    [req.Data]. *)
Record PublishRequest := {
  req_Data : list Byte.byte;
  req_Topic : string;
}.

(** Modelled from the spec: an inbound message, "topic name + opaque byte
    payload", built by the adapter with the fields [Topic] and [Data]. *)
Record NewMessage := {
  msg_Data : list Byte.byte;
  msg_Topic : string;
}.

(** Modelled from the spec: "a flat string-to-string property map"; the
    adapter reads [metadata.Properties].  A nil Go map reads like the empty
    one. *)
Record Metadata := {
  Properties : gmap string string;
}.

(** Modelled from the spec: the subscribe request; the adapter never looks
    inside it (the topics come from the configuration). *)
Record SubscribeRequest := {
  sub_Topic : string;
}.

End pubsub.

(** ** The Go side of the outside world

    [error] holds the non-nil values of Go's [error] interface, and [Ext] the
    state of everything outside the adapter: the brokers, the client
    library's internals, whatever the caller's handler closes over. *)

Class Runtime := {
  error : Type;
  Ext : Type;
}.

(** ** The part of sarama the adapter uses *)

Module sarama.

(** [sarama.RequiredAcks] is an int16 with three named values. *)
Definition RequiredAcks := Z.
Definition NoResponse : RequiredAcks := 0.
Definition WaitForLocal : RequiredAcks := 1.
Definition WaitForAll : RequiredAcks := -1.

(** [sarama.KafkaVersion], four numbers. *)
Definition KafkaVersion := (Z * Z * Z * Z)%type.
Definition V1_0_0_0 : KafkaVersion := (1, 0, 0, 0).

(** [sarama.Config], restricted to the fields the adapter assigns:
    [Producer.RequiredAcks], [Producer.Retry.Max],
    [Producer.Return.Successes] and [Version]. *)
Record Config := {
  Producer_RequiredAcks : RequiredAcks;
  Producer_Retry_Max : Z;
  Producer_Return_Successes : bool;
  Version : KafkaVersion;
}.

(** [sarama.ProducerMessage]: the adapter fills [Topic] and [Value] and
    leaves every other field at its zero value.  [sarama.ByteEncoder] is a
    conversion of the byte slice, so [Value] holds the bytes. *)
Record ProducerMessage := {
  pm_Topic : string;
  pm_Value : list Byte.byte;
}.

Definition ByteEncoder (b : list Byte.byte) : list Byte.byte := b.

(** [sarama.ConsumerMessage]. *)
Record ConsumerMessage := {
  cm_Key : list Byte.byte;
  cm_Value : list Byte.byte;
  cm_Topic : string;
  cm_Partition : Z;
  cm_Offset : Z;
}.

(** A [sarama.ConsumerGroupClaim]: its topic and the records its
    [Messages()] channel delivers before it is closed. *)
Record ConsumerGroupClaim := {
  claim_Topic : string;
  claim_Messages : list ConsumerMessage;
}.

(** The client itself, the brokers behind it and the session it hands to the
    handler are parameters.  An interface value or pointer that may be nil is
    an [option]; a Go [error] is [option error], [None] being nil. *)
Class API `{Runtime} := {
  SyncProducer : Type;
  ConsumerGroup : Type;
  ConsumerGroupSession : Type;
  (** [sarama.NewConfig()] *)
  NewConfig : Config;
  (** [sarama.NewSyncProducer(addrs, config)] *)
  NewSyncProducer :
    list string → Config → Ext → (option SyncProducer * option error) * Ext;
  (** [SyncProducer.SendMessage(msg)]: partition, offset, error *)
  SendMessage :
    SyncProducer → ProducerMessage → Ext → (Z * Z * option error) * Ext;
  (** [sarama.NewConsumerGroup(addrs, groupID, config)] *)
  NewConsumerGroup :
    list string → string → Config → Ext →
    (option ConsumerGroup * option error) * Ext;
  (** [ConsumerGroup.Close()] *)
  Close : ConsumerGroup → Ext → option error * Ext;
  (** [ConsumerGroupSession.MarkMessage(msg, metadata)] *)
  MarkMessage : ConsumerGroupSession → ConsumerMessage → string → Ext → Ext;
}.

End sarama.

Section adapter.
Context `{sarama.API}.

(** *** Channels of type [chan bool]

    A channel value is nil or a reference into the store of channels. *)
Inductive ChanState := Open | Closed.

Definition chan := option nat.

(** *** What the adapter does to the outside, in order *)
Inductive Event :=
| EvNewSyncProducer (addrs : list string) (config : sarama.Config)
| EvSendMessage (p : sarama.SyncProducer) (msg : sarama.ProducerMessage)
                (err : option error)
| EvNewConsumerGroup (addrs : list string) (groupID : string)
                     (config : sarama.Config)
| EvConsume (topics : list string)
| EvClose (err : option error)
| EvRecv (m : sarama.ConsumerMessage)
| EvCallback (msg : pubsub.NewMessage) (err : option error)
| EvMarkMessage (m : sarama.ConsumerMessage) (metadata : string)
| EvLog (err : error).

Record World := {
  ext : Ext;
  chans : list ChanState;
  trace : list Event;
}.

Definition set_ext (e : Ext) (w : World) : World :=
  {| ext := e; chans := chans w; trace := trace w |}.

Definition set_chans (c : list ChanState) (w : World) : World :=
  {| ext := ext w; chans := c; trace := trace w |}.

Definition emit (ev : Event) (w : World) : World :=
  {| ext := ext w; chans := chans w; trace := trace w ++ [ev] |}.

(** *** Computations: state passing, with Go's panics *)
Inductive Res (A : Type) :=
| Ok (a : A) (w : World)
| Panic (reason : string) (w : World).
Global Arguments Ok {A} a w.
Global Arguments Panic {A} reason w.

Definition M (A : Type) : Type := World → Res A.

#[global] Instance M_ret : MRet M := λ A a w, Ok a w.

#[global] Instance M_bind : MBind M := λ A B f m w,
  match m w with
  | Ok a w' => f a w'
  | Panic r w' => Panic r w'
  end.

Definition panic {A} (reason : string) : M A := λ w, Panic reason w.

Definition res_world {A} (r : Res A) : World :=
  match r with Ok _ w => w | Panic _ w => w end.

(** [make(chan bool)] *)
Definition make_chan : M chan := λ w,
  Ok (Some (length (chans w))) (set_chans (chans w ++ [Open]) w).

(** [close(c)]: closing a nil or an already closed channel panics. *)
Definition close (c : chan) : M unit := λ w,
  match c with
  | None => Panic "close of nil channel" w
  | Some i =>
      match chans w !! i with
      | Some Open => Ok tt (set_chans (<[i:=Closed]> (chans w)) w)
      | Some Closed => Panic "close of closed channel" w
      | None => Panic "close of nil channel" w
      end
  end.

(** Whether a receive on [c] can proceed because [c] is closed.  Nothing is
    ever sent on the adapter's channels, and a receive on a nil channel blocks
    for ever. *)
Definition is_closed (c : chan) (w : World) : bool :=
  match c with
  | None => false
  | Some i => match chans w !! i with Some Closed => true | _ => false end
  end.

(** *** Calls into sarama and into the handler, each leaving its event *)
Definition sarama_NewSyncProducer (addrs : list string)
    (config : sarama.Config)
  : M (option sarama.SyncProducer * option error) := λ w,
  let '(r, e) := sarama.NewSyncProducer addrs config (ext w) in
  Ok r (emit (EvNewSyncProducer addrs config) (set_ext e w)).

Definition producer_SendMessage (p : sarama.SyncProducer)
    (msg : sarama.ProducerMessage) : M (Z * Z * option error) := λ w,
  let '(r, e) := sarama.SendMessage p msg (ext w) in
  Ok r (emit (EvSendMessage p msg (snd r)) (set_ext e w)).

Definition sarama_NewConsumerGroup (addrs : list string) (groupID : string)
    (config : sarama.Config)
  : M (option sarama.ConsumerGroup * option error) := λ w,
  let '(r, e) := sarama.NewConsumerGroup addrs groupID config (ext w) in
  Ok r (emit (EvNewConsumerGroup addrs groupID config) (set_ext e w)).

Definition client_Close (c : sarama.ConsumerGroup) : M (option error) := λ w,
  let '(r, e) := sarama.Close c (ext w) in
  Ok r (emit (EvClose r) (set_ext e w)).

Definition session_MarkMessage (s : sarama.ConsumerGroupSession)
    (m : sarama.ConsumerMessage) (metadata : string) : M unit := λ w,
  Ok tt (emit (EvMarkMessage m metadata)
              (set_ext (sarama.MarkMessage s m metadata (ext w)) w)).

(** A handler [func(msg *pubsub.NewMessage) error] may read and change
    anything outside the adapter; it is taken to return. *)
Definition Handler : Type := pubsub.NewMessage → Ext → option error * Ext.

Definition call_handler (h : Handler) (msg : pubsub.NewMessage)
  : M (option error) := λ w,
  let '(r, e) := h msg (ext w) in
  Ok r (emit (EvCallback msg r) (set_ext e w)).

(** One record coming out of [claim.Messages()]. *)
Definition recv_message (m : sarama.ConsumerMessage) : M unit := λ w,
  Ok tt (emit (EvRecv m) w).

Definition log_Errorf (e : error) : M unit := λ w,
  Ok tt (emit (EvLog e) w).

(** ** The adapter *)

(** [type Kafka struct] *)
Record Kafka := {
  producer : option sarama.SyncProducer;
  topics : list string;
  consumerGroup : string;
  brokers : list string;
}.

(** [type kafkaMetadata struct]; a nil slice is the empty list. *)
Record kafkaMetadata := {
  Brokers : list string;
  Topics : list string;
  PublishTopic : string;
  ConsumerGroup : string;
}.

(** [type consumer struct] *)
Record consumer := {
  ready : chan;
  callback : option Handler;
}.

(** [func (consumer *consumer) Setup(sarama.ConsumerGroupSession) error] *)
Definition Setup (c : consumer) (_ : sarama.ConsumerGroupSession)
  : M (option error) :=
  close (ready c) ≫= λ _,
  mret None.

(** The body of the [for message := range claim.Messages()] loop. *)
Definition ConsumeClaim_body (c : consumer)
    (session : sarama.ConsumerGroupSession)
    (claim : sarama.ConsumerGroupClaim) (message : sarama.ConsumerMessage)
  : M unit :=
  match callback c with
  | Some cb =>
      err ← call_handler cb
              {| pubsub.msg_Topic := sarama.claim_Topic claim;
                 pubsub.msg_Data := sarama.cm_Value message |};
      match err with
      | None => session_MarkMessage session message ""
      | Some _ => mret tt
      end
  | None => mret tt
  end.

Fixpoint range_Messages (body : sarama.ConsumerMessage → M unit)
    (messages : list sarama.ConsumerMessage) : M unit :=
  match messages with
  | [] => mret tt
  | message :: rest =>
      recv_message message ≫= λ _,
      body message ≫= λ _,
      range_Messages body rest
  end.

(** [func (consumer *consumer) ConsumeClaim(session, claim) error] *)
Definition ConsumeClaim (c : consumer)
    (session : sarama.ConsumerGroupSession)
    (claim : sarama.ConsumerGroupClaim) : M (option error) :=
  range_Messages (ConsumeClaim_body c session claim)
                 (sarama.claim_Messages claim) ≫= λ _,
  mret None.

(** [func (consumer *consumer) Cleanup(sarama.ConsumerGroupSession) error] *)
Definition Cleanup (c : consumer) (_ : sarama.ConsumerGroupSession)
  : M (option error) :=
  mret None.

(** [func NewKafka() pubsub.PubSub]: every field at its zero value. *)
Definition NewKafka : Kafka :=
  {| producer := None; topics := []; consumerGroup := ""; brokers := [] |}.

(** [func (k *Kafka) getKafkaMetadata(metadata)], returning the metadata and
    an error.
    Reading a key that is absent from a Go map yields the empty string. *)
Definition getKafkaMetadata (k : Kafka) (metadata : pubsub.Metadata)
  : kafkaMetadata * option error :=
  let meta :=
    {| Brokers := []; Topics := []; PublishTopic := ""; ConsumerGroup := "" |}
  in
  let meta :=
    {| Brokers := Brokers meta; Topics := Topics meta;
       PublishTopic := PublishTopic meta;
       ConsumerGroup :=
         default "" (pubsub.Properties metadata !! "consumerGroup") |}
  in
  let meta :=
    match pubsub.Properties metadata !! "brokers" with
    | Some val =>
        if negb (String.eqb val "") then
          {| Brokers := GoStrings.Split val ",";
             Topics := Topics meta; PublishTopic := PublishTopic meta;
             ConsumerGroup := ConsumerGroup meta |}
        else meta
    | None => meta
    end
  in
  let meta :=
    match pubsub.Properties metadata !! "topics" with
    | Some val =>
        if negb (String.eqb val "") then
          {| Brokers := Brokers meta;
             Topics := GoStrings.Split val ",";
             PublishTopic := PublishTopic meta;
             ConsumerGroup := ConsumerGroup meta |}
        else meta
    | None => meta
    end
  in
  (meta, None).

(** [func (k *Kafka) getSyncProducer(meta) (sarama.SyncProducer, error)] *)
Definition getSyncProducer (k : Kafka) (meta : kafkaMetadata)
  : M (option sarama.SyncProducer * option error) :=
  let config := sarama.NewConfig in
  let config :=
    {| sarama.Producer_RequiredAcks := sarama.WaitForAll;
       sarama.Producer_Retry_Max := sarama.Producer_Retry_Max config;
       sarama.Producer_Return_Successes :=
         sarama.Producer_Return_Successes config;
       sarama.Version := sarama.Version config |} in
  let config :=
    {| sarama.Producer_RequiredAcks := sarama.Producer_RequiredAcks config;
       sarama.Producer_Retry_Max := 5;
       sarama.Producer_Return_Successes :=
         sarama.Producer_Return_Successes config;
       sarama.Version := sarama.Version config |} in
  let config :=
    {| sarama.Producer_RequiredAcks := sarama.Producer_RequiredAcks config;
       sarama.Producer_Retry_Max := sarama.Producer_Retry_Max config;
       sarama.Producer_Return_Successes := true;
       sarama.Version := sarama.Version config |} in
  '(producer, err) ← sarama_NewSyncProducer (Brokers meta) config;
  match err with
  | Some e => mret (None, Some e)
  | None => mret (producer, None)
  end.

(** [func (k *Kafka) Init(metadata pubsub.Metadata) error].  The receiver is
    a pointer: the adapter after the call is returned next to the error. *)
Definition Init (k : Kafka) (metadata : pubsub.Metadata)
  : M (Kafka * option error) :=
  let '(meta, err) := getKafkaMetadata k metadata in
  match err with
  | Some e => mret (k, Some e)
  | None =>
      '(p, err) ← getSyncProducer k meta;
      match err with
      | Some e => mret (k, Some e)
      | None =>
          let k := {| producer := producer k; topics := topics k;
                      consumerGroup := consumerGroup k;
                      brokers := Brokers meta |} in
          let k := {| producer := p; topics := topics k;
                      consumerGroup := consumerGroup k;
                      brokers := brokers k |} in
          let k := {| producer := producer k; topics := Topics meta;
                      consumerGroup := consumerGroup k;
                      brokers := brokers k |} in
          let k := {| producer := producer k; topics := topics k;
                      consumerGroup := ConsumerGroup meta;
                      brokers := brokers k |} in
          mret (k, None)
      end
  end.

(** [func (k *Kafka) Publish(req *pubsub.PublishRequest) error].  Calling a
    method on a nil interface value panics. *)
Definition Publish (k : Kafka) (req : pubsub.PublishRequest)
  : M (option error) :=
  match producer k with
  | None => panic "invalid memory address or nil pointer dereference"
  | Some p =>
      '(_, _, err) ← producer_SendMessage p
                       {| sarama.pm_Topic := pubsub.req_Topic req;
                          sarama.pm_Value :=
                            sarama.ByteEncoder (pubsub.req_Data req) |};
      match err with
      | Some e => mret (Some e)
      | None => mret None
      end
  end.

(** ** [Subscribe]: two goroutines

    [Subscribe] starts the consume loop in a goroutine of its own and then
    waits, so it is modelled as a transition system: [step] moves one of the
    two goroutines, or lets the outside act, and a schedule is the list of
    who moved.  A step that is not enabled (a goroutine blocked in a receive,
    in [wg.Wait()] or inside [client.Consume]) is [None]. *)

(** Where the calling goroutine stands. *)
Inductive MainPC :=
| M_Start                 (* lines 105-121: up to the [go] statement *)
| M_EvalReady             (* line 136: reads the field [cs.ready] *)
| M_RecvReady (c : chan)  (* line 136: receives from that channel *)
| M_Notify                (* lines 138-139 *)
| M_RecvSig               (* line 140 *)
| M_Cancel                (* line 141 *)
| M_Wait                  (* line 142 *)
| M_Close                 (* line 143 *)
| M_Return (r : option error).

(** Where the consume loop (lines 122-134) stands. *)
Inductive LoopPC :=
| L_Idle                  (* not started yet *)
| L_Consume               (* line 125: calls [client.Consume] *)
| L_InConsume             (* inside [client.Consume] *)
| L_Check                 (* line 129 *)
| L_Reset                 (* line 132 *)
| L_Done.                 (* returned; the deferred [wg.Done()] has run *)

Record SubState := {
  st_world : World;
  st_cs : consumer;                          (* [cs], shared through [&cs] *)
  st_err : option error;                     (* [err], captured by the closure *)
  st_client : option sarama.ConsumerGroup;   (* [client] *)
  st_ctx : bool;                             (* [ctx.Err() != nil] *)
  st_wg : Z;                                 (* the WaitGroup's counter *)
  st_notify : bool;                          (* [signal.Notify] was called *)
  st_sigterm : bool;                         (* a signal waits in [sigterm] *)
  st_main : MainPC;
  st_loop : LoopPC;
}.

Definition set_world (w : World) (s : SubState) : SubState :=
  {| st_world := w; st_cs := st_cs s; st_err := st_err s;
     st_client := st_client s; st_ctx := st_ctx s; st_wg := st_wg s;
     st_notify := st_notify s; st_sigterm := st_sigterm s;
     st_main := st_main s; st_loop := st_loop s |}.

Definition set_cs (c : consumer) (s : SubState) : SubState :=
  {| st_world := st_world s; st_cs := c; st_err := st_err s;
     st_client := st_client s; st_ctx := st_ctx s; st_wg := st_wg s;
     st_notify := st_notify s; st_sigterm := st_sigterm s;
     st_main := st_main s; st_loop := st_loop s |}.

Definition set_err (e : option error) (s : SubState) : SubState :=
  {| st_world := st_world s; st_cs := st_cs s; st_err := e;
     st_client := st_client s; st_ctx := st_ctx s; st_wg := st_wg s;
     st_notify := st_notify s; st_sigterm := st_sigterm s;
     st_main := st_main s; st_loop := st_loop s |}.

Definition set_client (c : option sarama.ConsumerGroup) (s : SubState)
  : SubState :=
  {| st_world := st_world s; st_cs := st_cs s; st_err := st_err s;
     st_client := c; st_ctx := st_ctx s; st_wg := st_wg s;
     st_notify := st_notify s; st_sigterm := st_sigterm s;
     st_main := st_main s; st_loop := st_loop s |}.

Definition set_ctx (b : bool) (s : SubState) : SubState :=
  {| st_world := st_world s; st_cs := st_cs s; st_err := st_err s;
     st_client := st_client s; st_ctx := b; st_wg := st_wg s;
     st_notify := st_notify s; st_sigterm := st_sigterm s;
     st_main := st_main s; st_loop := st_loop s |}.

Definition set_wg (n : Z) (s : SubState) : SubState :=
  {| st_world := st_world s; st_cs := st_cs s; st_err := st_err s;
     st_client := st_client s; st_ctx := st_ctx s; st_wg := n;
     st_notify := st_notify s; st_sigterm := st_sigterm s;
     st_main := st_main s; st_loop := st_loop s |}.

Definition set_notify (b : bool) (s : SubState) : SubState :=
  {| st_world := st_world s; st_cs := st_cs s; st_err := st_err s;
     st_client := st_client s; st_ctx := st_ctx s; st_wg := st_wg s;
     st_notify := b; st_sigterm := st_sigterm s;
     st_main := st_main s; st_loop := st_loop s |}.

Definition set_sigterm (b : bool) (s : SubState) : SubState :=
  {| st_world := st_world s; st_cs := st_cs s; st_err := st_err s;
     st_client := st_client s; st_ctx := st_ctx s; st_wg := st_wg s;
     st_notify := st_notify s; st_sigterm := b;
     st_main := st_main s; st_loop := st_loop s |}.

Definition set_main (pc : MainPC) (s : SubState) : SubState :=
  {| st_world := st_world s; st_cs := st_cs s; st_err := st_err s;
     st_client := st_client s; st_ctx := st_ctx s; st_wg := st_wg s;
     st_notify := st_notify s; st_sigterm := st_sigterm s;
     st_main := pc; st_loop := st_loop s |}.

Definition set_loop (pc : LoopPC) (s : SubState) : SubState :=
  {| st_world := st_world s; st_cs := st_cs s; st_err := st_err s;
     st_client := st_client s; st_ctx := st_ctx s; st_wg := st_wg s;
     st_notify := st_notify s; st_sigterm := st_sigterm s;
     st_main := st_main s; st_loop := pc |}.

(** The process: running, brought down by a panic, or ended by a signal that
    nobody had asked to be notified of. *)
Inductive Proc :=
| Running (s : SubState)
| Crashed (reason : string) (w : World)
| Killed (w : World).

(** Runs a computation on the state's world. *)
Definition exec {A} (m : M A) (s : SubState) (k : A → SubState → SubState)
  : Proc :=
  match m (st_world s) with
  | Ok a w => Running (k a (set_world w s))
  | Panic r w => Crashed r w
  end.

(** What sarama does to the handler [&cs] while [client.Consume] runs. *)
Inductive HookCall :=
| CallSetup (session : sarama.ConsumerGroupSession)
| CallConsumeClaim (session : sarama.ConsumerGroupSession)
                   (claim : sarama.ConsumerGroupClaim)
| CallCleanup (session : sarama.ConsumerGroupSession).

Definition run_hook (h : HookCall) (c : consumer) : M (option error) :=
  match h with
  | CallSetup session => Setup c session
  | CallConsumeClaim session claim => ConsumeClaim c session claim
  | CallCleanup session => Cleanup c session
  end.

(** Who moves. *)
Inductive Label :=
| Main                              (* the calling goroutine *)
| Loop                              (* the consume loop *)
| Hook (h : HookCall)               (* sarama calls the handler *)
| ConsumeReturn (e : option error)  (* [client.Consume] returns [e] *)
| Signal                            (* SIGINT or SIGTERM arrives *)
| Outside (f : Ext → Ext).          (* anything else changes the outside *)

Definition nil_deref : string :=
  "invalid memory address or nil pointer dereference".

(** Lines 105-121. *)
Definition Subscribe_prologue (k : Kafka) (handler : option Handler)
    (s : SubState) : Proc :=
  let config := sarama.NewConfig in
  let config :=
    {| sarama.Producer_RequiredAcks := sarama.Producer_RequiredAcks config;
       sarama.Producer_Retry_Max := sarama.Producer_Retry_Max config;
       sarama.Producer_Return_Successes :=
         sarama.Producer_Return_Successes config;
       sarama.Version := sarama.V1_0_0_0 |} in
  exec (c ← make_chan;
        r ← sarama_NewConsumerGroup (brokers k) (consumerGroup k) config;
        mret (c, r)) s
    (λ '(c, (client, err)) s,
      let s := set_cs {| callback := handler; ready := c |} s in
      let s := set_err err (set_client client s) in
      match err with
      | Some e => set_main (M_Return (Some e)) s
      | None =>
          (* ctx, cancel := context.WithCancel(...); wg.Add(1); go ... *)
          set_main M_EvalReady
            (set_loop L_Consume (set_wg (st_wg s + 1) (set_ctx false s)))
      end).

Definition step_main (k : Kafka) (handler : option Handler) (s : SubState)
  : option Proc :=
  match st_main s with
  | M_Start => Some (Subscribe_prologue k handler s)
  | M_EvalReady => Some (Running (set_main (M_RecvReady (ready (st_cs s))) s))
  | M_RecvReady c =>
      if is_closed c (st_world s) then Some (Running (set_main M_Notify s))
      else None
  | M_Notify => Some (Running (set_main M_RecvSig (set_notify true s)))
  | M_RecvSig =>
      if st_sigterm s
      then Some (Running (set_main M_Cancel (set_sigterm false s)))
      else None
  | M_Cancel => Some (Running (set_main M_Wait (set_ctx true s)))
  | M_Wait =>
      if (st_wg s =? 0)%Z then Some (Running (set_main M_Close s)) else None
  | M_Close =>
      match st_client s with
      | None => Some (Crashed nil_deref (st_world s))
      | Some client =>
          Some (exec (client_Close client) s (λ err s,
            let s := set_err err s in
            match err with
            | Some e => set_main (M_Return (Some e)) s
            | None => set_main (M_Return None) s
            end))
      end
  | M_Return _ => None
  end.

Definition step_loop (k : Kafka) (s : SubState) : option Proc :=
  match st_loop s with
  | L_Idle => None
  | L_Consume =>
      match st_client s with
      | None => Some (Crashed nil_deref (st_world s))
      | Some _ =>
          Some (Running (set_loop L_InConsume
                  (set_world (emit (EvConsume (topics k)) (st_world s)) s)))
      end
  | L_InConsume => None
  | L_Check =>
      if st_ctx s then
        if (st_wg s - 1 <? 0)%Z
        then Some (Crashed "sync: negative WaitGroup counter" (st_world s))
        else Some (Running (set_loop L_Done (set_wg (st_wg s - 1) s)))
      else Some (Running (set_loop L_Reset s))
  | L_Reset =>
      Some (exec make_chan s (λ c s,
        set_loop L_Consume
          (set_cs {| ready := c; callback := callback (st_cs s) |} s)))
  | L_Done => None
  end.

Definition step (k : Kafka) (handler : option Handler) (l : Label)
    (s : SubState) : option Proc :=
  match l with
  | Main => step_main k handler s
  | Loop => step_loop k s
  | Hook h =>
      match st_loop s with
      | L_InConsume => Some (exec (run_hook h (st_cs s)) s (λ _ s, s))
      | _ => None
      end
  | ConsumeReturn e =>
      match st_loop s with
      | L_InConsume =>
          let s := set_err e s in
          match e with
          | Some e' => Some (exec (log_Errorf e') s (λ _ s, set_loop L_Check s))
          | None => Some (Running (set_loop L_Check s))
          end
      | _ => None
      end
  | Signal =>
      if st_notify s then Some (Running (set_sigterm true s))
      else Some (Killed (st_world s))
  | Outside f =>
      Some (Running (set_world (set_ext (f (ext (st_world s))) (st_world s)) s))
  end.

Fixpoint run (k : Kafka) (handler : option Handler) (sched : list Label)
    (p : Proc) : option Proc :=
  match sched with
  | [] => Some p
  | l :: sched =>
      match p with
      | Running s => step k handler l s ≫= run k handler sched
      | _ => None
      end
  end.

(** The state in which [Subscribe] is entered. *)
Definition Subscribe_entry (w : World) : SubState :=
  {| st_world := w; st_cs := {| ready := None; callback := None |};
     st_err := None; st_client := None; st_ctx := false; st_wg := 0;
     st_notify := false; st_sigterm := false;
     st_main := M_Start; st_loop := L_Idle |}.

(** [func (k *Kafka) Subscribe(req, handler) error], under a schedule. *)
Definition Subscribe (k : Kafka) (req : pubsub.SubscribeRequest)
    (handler : option Handler) (sched : list Label) (w : World)
  : option Proc :=
  run k handler sched (Running (Subscribe_entry w)).

(** What [Subscribe] has returned, if it has. *)
Definition returned (p : Proc) : option (option error) :=
  match p with
  | Running s => match st_main s with M_Return r => Some r | _ => None end
  | _ => None
  end.

Definition proc_world (p : Proc) : World :=
  match p with
  | Running s => st_world s
  | Crashed _ w => w
  | Killed w => w
  end.

(** The schedule of an orderly run: the loop enters [client.Consume], the
    session is set up, the caller gets past the gate and waits for a signal,
    the signal comes, the context is cancelled, [client.Consume] returns, the
    loop sees the cancellation and ends, and the caller closes the client. *)
Definition orderly (session : sarama.ConsumerGroupSession) : list Label :=
  [Main; Loop; Hook (CallSetup session); Main; Main; Main; Signal; Main;
   Main; ConsumeReturn None; Loop; Main; Main].

(** What ties the WaitGroup's counter to where the two goroutines stand:
    the counter is 1 exactly while the loop runs, and the caller gets to
    [client.Close()] and to its return only when the loop does not run. *)
Definition Inv (s : SubState) : Prop :=
  match st_loop s with
  | L_Idle => st_wg s = 0 ∧ (st_main s = M_Start ∨ ∃ r, st_main s = M_Return r)
  | L_Done => st_wg s = 0 ∧ st_main s ≠ M_Start
  | _ =>
      st_wg s = 1 ∧ st_main s ≠ M_Start ∧ st_main s ≠ M_Close
      ∧ ∀ r, st_main s ≠ M_Return r
  end.

(** A loop that is past its call of [client.Consume] has a client: with a
    nil [client] line 125 brings the process down. *)
Definition has_client (s : SubState) : Prop :=
  match st_loop s with
  | L_InConsume | L_Check | L_Reset => is_Some (st_client s)
  | _ => True
  end.

(** *** Readings of a trace *)

(** How often [client.Consume] was called. *)
Fixpoint Consume_calls (t : list Event) : nat :=
  match t with
  | [] => 0
  | EvConsume _ :: t => S (Consume_calls t)
  | _ :: t => Consume_calls t
  end.

(** The producers constructed, by the configuration they were given. *)
Fixpoint constructions (t : list Event) : list (list string * sarama.Config) :=
  match t with
  | [] => []
  | EvNewSyncProducer addrs config :: t => (addrs, config) :: constructions t
  | _ :: t => constructions t
  end.

End adapter.

(** ** A test double for the platform

    The fake client the closed examples below run against.  The outside is a
    counter: it counts the messages sent and the offsets marked.  Constructors
    fail on an empty broker list, a send fails on an empty topic, and closing
    fails when the counter is odd. *)

Module Fake.

#[global] Instance runtime : Runtime := {| error := string; Ext := nat |}.

Definition NewConfig : sarama.Config :=
  {| sarama.Producer_RequiredAcks := sarama.WaitForLocal;
     sarama.Producer_Retry_Max := 3;
     sarama.Producer_Return_Successes := false;
     sarama.Version := (0, 8, 2, 0) |}.

Definition NewSyncProducer (addrs : list string) (config : sarama.Config)
    (e : nat) : (option nat * option string) * nat :=
  match addrs with
  | [] => ((None, Some "kafka: invalid configuration"), e)
  | _ => ((Some 7%nat, None), e)
  end.

Definition SendMessage (p : nat) (msg : sarama.ProducerMessage) (e : nat)
  : (Z * Z * option string) * nat :=
  if String.eqb (sarama.pm_Topic msg) ""
  then ((0, 0, Some "kafka: invalid topic"), e)
  else ((0, Z.of_nat e, None), S e).

Definition NewConsumerGroup (addrs : list string) (groupID : string)
    (config : sarama.Config) (e : nat)
  : (option nat * option string) * nat :=
  match addrs with
  | [] => ((None, Some "kafka: invalid configuration"), e)
  | _ => ((Some 9%nat, None), e)
  end.

Definition Close (c : nat) (e : nat) : option string * nat :=
  if Nat.even e then (None, e) else (Some "kafka: close failed", e).

Definition MarkMessage (s : unit) (m : sarama.ConsumerMessage)
    (metadata : string) (e : nat) : nat := S e.

#[global] Instance api : sarama.API :=
  {| sarama.SyncProducer := nat;
     sarama.ConsumerGroup := nat;
     sarama.ConsumerGroupSession := unit;
     sarama.NewConfig := NewConfig;
     sarama.NewSyncProducer := NewSyncProducer;
     sarama.SendMessage := SendMessage;
     sarama.NewConsumerGroup := NewConsumerGroup;
     sarama.Close := Close;
     sarama.MarkMessage := MarkMessage |}.

(** The world before anything happened. *)
Definition world0 : World := {| ext := 0%nat; chans := []; trace := [] |}.

(** The property map of [TestParseMetadata]. *)
Definition test_properties : gmap string string :=
  <["consumerGroup" := "a"]> (<["brokers" := "a"]> (<["topics" := "a"]> ∅)).

(** A handler that refuses empty payloads. *)
Definition picky : Handler := λ msg e,
  match pubsub.msg_Data msg with
  | [] => (Some "empty payload", e)
  | _ => (None, e)
  end.

Definition record (offset : Z) (value : list Byte.byte)
  : sarama.ConsumerMessage :=
  {| sarama.cm_Key := []; sarama.cm_Value := value;
     sarama.cm_Topic := "orders"; sarama.cm_Partition := 0;
     sarama.cm_Offset := offset |}.

Definition orders : sarama.ConsumerGroupClaim :=
  {| sarama.claim_Topic := "orders";
     sarama.claim_Messages :=
       [record 0 [Byte.x01]; record 1 []; record 2 [Byte.x02; Byte.x03]] |}.

(** An adapter initialised for one broker. *)
Definition adapter : Kafka :=
  {| producer := Some 7%nat; topics := ["orders"]; consumerGroup := "g";
     brokers := ["localhost:9092"] |}.

(** The session of the fake client. *)
Definition session : sarama.ConsumerGroupSession := tt.

(** Consumers: with the picky handler, without handler, and without handler
    but with the channel 0 as its gate. *)
Definition picky_consumer : consumer :=
  {| ready := None; callback := Some picky |}.

Definition bare_consumer : consumer := {| ready := None; callback := None |}.

Definition gated_consumer : consumer :=
  {| ready := Some 0%nat; callback := None |}.

(** Worlds with the one channel 0, unreleased and released. *)
Definition world_open : World :=
  {| ext := 0%nat; chans := [Open]; trace := [] |}.

Definition world_closed : World :=
  {| ext := 0%nat; chans := [Closed]; trace := [] |}.

(** A subscribe request, and three schedules: one that stops when
    [client.Consume] has returned with a broker error and nothing was
    cancelled; the orderly one, stopped when [client.Consume] has returned
    after the cancellation; and a full one in which the picky handler turns a
    record down and the outside makes the close fail. *)
Definition request : pubsub.SubscribeRequest :=
  {| pubsub.sub_Topic := "orders" |}.

Definition broker_down : list Label :=
  [Main; Loop; ConsumeReturn (Some "kafka: broker down")].

Definition cancelled : list Label :=
  [Main; Loop; Hook (CallSetup session); Main; Main; Main; Signal; Main;
   Main; ConsumeReturn None].

Definition eventful : list Label :=
  [Main; Loop; Hook (CallSetup session);
   Hook (CallConsumeClaim session orders); Main; Main; Main; Signal; Main;
   Main; Hook (CallCleanup session);
   ConsumeReturn (Some "kafka: broker down"); Loop; Outside S; Main; Main].

End Fake.

(** ** Further readings of a trace, and schedules *)

Section readings.
Context `{sarama.API}.

(** The calls of the handler, each with what it returned. *)
Fixpoint callbacks (t : list Event)
  : list (pubsub.NewMessage * option error) :=
  match t with
  | [] => []
  | EvCallback msg err :: t => (msg, err) :: callbacks t
  | _ :: t => callbacks t
  end.

(** The records marked, each with the metadata it was marked with. *)
Fixpoint marks (t : list Event) : list (sarama.ConsumerMessage * string) :=
  match t with
  | [] => []
  | EvMarkMessage m metadata :: t => (m, metadata) :: marks t
  | _ :: t => marks t
  end.

(** The messages sent, each with the producer and the outcome. *)
Fixpoint sends (t : list Event)
  : list (sarama.SyncProducer * sarama.ProducerMessage * option error) :=
  match t with
  | [] => []
  | EvSendMessage p msg err :: t => (p, msg, err) :: sends t
  | _ :: t => sends t
  end.

(** The topic lists [client.Consume] was called with. *)
Fixpoint consumed (t : list Event) : list (list string) :=
  match t with
  | [] => []
  | EvConsume topics :: t => topics :: consumed t
  | _ :: t => consumed t
  end.

(** What [client.Close()] returned, call by call. *)
Fixpoint closes (t : list Event) : list (option error) :=
  match t with
  | [] => []
  | EvClose err :: t => err :: closes t
  | _ :: t => closes t
  end.

(** The errors logged. *)
Fixpoint logged (t : list Event) : list error :=
  match t with
  | [] => []
  | EvLog e :: t => e :: logged t
  | _ :: t => logged t
  end.

(** The consumer groups constructed: brokers, group and configuration. *)
Fixpoint groups (t : list Event)
  : list (list string * string * sarama.Config) :=
  match t with
  | [] => []
  | EvNewConsumerGroup addrs groupID config :: t =>
      (addrs, groupID, config) :: groups t
  | _ :: t => groups t
  end.

(** The schedule of [n] rounds of the loop in each of which
    [client.Consume] returns [e] at once: the call, its return, the check of
    the context and the new gate. *)
Fixpoint rounds (n : nat) (e : option error) : list Label :=
  match n with
  | O => []
  | S n => [Loop; ConsumeReturn e; Loop; Loop] ++ rounds n e
  end.

(** Whether a label is sarama calling [Setup]. *)
Definition is_Setup (l : Label) : bool :=
  match l with Hook (CallSetup _) => true | _ => false end.

(** Whether a label is the arrival of a signal. *)
Definition is_Signal (l : Label) : bool :=
  match l with Signal => true | _ => false end.

End readings.

(** * Properties *)

(** ** [strings.Split] and [strings.Join] are inverse to each other *)

Section split.
Variable sep : ascii.

Lemma Split_nonempty (s : string) : GoStrings.Split s sep ≠ [].
Proof.
  destruct s as [|c s]; simpl; [done|].
  destruct (Ascii.eqb c sep); [done|].
  by destruct (GoStrings.Split s sep).
Qed.

Lemma Split_lacks (s : string) :
  GoStrings.lacks sep s = true → GoStrings.Split s sep = [s].
Proof.
  induction s as [|c s IH]; simpl; [done|].
  intros [Hc Hs]%andb_prop.
  apply negb_true_iff in Hc. rewrite Hc, (IH Hs). done.
Qed.

Lemma Split_append (x rest : string) :
  GoStrings.lacks sep x = true →
  GoStrings.Split (x +:+ String sep rest) sep
  = x :: GoStrings.Split rest sep.
Proof.
  induction x as [|c x IH]; simpl.
  - intros _. by rewrite Ascii.eqb_refl.
  - intros [Hc Hx]%andb_prop.
    apply negb_true_iff in Hc. rewrite Hc, (IH Hx). done.
Qed.

Lemma Split_Join (elems : list string) :
  elems ≠ [] →
  Forall (λ x, GoStrings.lacks sep x = true) elems →
  GoStrings.Split (GoStrings.Join elems sep) sep = elems.
Proof.
  induction elems as [|x rest IH]; [done|].
  intros _ Hall. apply Forall_cons in Hall as [Hx Hrest].
  destruct rest as [|y rest].
  - simpl. by apply Split_lacks.
  - change (GoStrings.Join (x :: y :: rest) sep)
      with (x +:+ String sep (GoStrings.Join (y :: rest) sep)).
    rewrite Split_append by done. f_equal. by apply IH.
Qed.

Lemma Join_cons_String (c : ascii) (x : string) (xs : list string) :
  GoStrings.Join (String c x :: xs) sep
  = String c (GoStrings.Join (x :: xs) sep).
Proof. by destruct xs. Qed.

Lemma Join_Split (s : string) :
  GoStrings.Join (GoStrings.Split s sep) sep = s.
Proof.
  induction s as [|c s IH]; simpl; [done|].
  destruct (Ascii.eqb_spec c sep) as [->|_].
  - pose proof (Split_nonempty s) as Hne.
    destruct (GoStrings.Split s sep) as [|y ys] eqn:E; [done|].
    change (GoStrings.Join (EmptyString :: y :: ys) sep)
      with (String sep (GoStrings.Join (y :: ys) sep)).
    by rewrite IH.
  - pose proof (Split_nonempty s) as Hne.
    destruct (GoStrings.Split s sep) as [|y ys] eqn:E; [done|].
    rewrite Join_cons_String. by rewrite IH.
Qed.

Lemma Split_all_lack (s : string) :
  Forall (λ x, GoStrings.lacks sep x = true) (GoStrings.Split s sep).
Proof.
  induction s as [|c s IH]; simpl.
  - by repeat constructor.
  - destruct (Ascii.eqb c sep) eqn:Hc.
    + by constructor.
    + destruct (GoStrings.Split s sep) as [|y ys].
      * repeat constructor. simpl. by rewrite Hc.
      * apply Forall_cons in IH as [Hy Hys].
        constructor; [|done]. simpl. by rewrite Hc, Hy.
Qed.

End split.

Lemma Join_empty (sep : ascii) (elems : list string) :
  GoStrings.Join elems sep = "" → elems = [] ∨ elems = [""].
Proof.
  destruct elems as [|x [|y rest]]; simpl.
  - by left.
  - intros ->. by right.
  - by destruct x.
Qed.

Lemma eqb_empty_false (s : string) : s ≠ "" → String.eqb s "" = false.
Proof. intros Hs. by apply String.eqb_neq. Qed.

(** ** The configuration resolver *)

Section metadata.
Context `{sarama.API}.
Implicit Types (k : Kafka) (m : gmap string string) (val : string).

Lemma getKafkaMetadata_Brokers k (metadata : pubsub.Metadata) :
  Brokers (getKafkaMetadata k metadata).1
  = match pubsub.Properties metadata !! "brokers" with
    | Some val => if String.eqb val "" then [] else GoStrings.Split val ","
    | None => []
    end.
Proof.
  unfold getKafkaMetadata.
  destruct (pubsub.Properties metadata !! "brokers") as [val|];
    destruct (pubsub.Properties metadata !! "topics") as [val'|]; simpl;
    repeat match goal with |- context [String.eqb ?v ""] =>
             destruct (String.eqb v "") end; done.
Qed.

Lemma getKafkaMetadata_Topics k (metadata : pubsub.Metadata) :
  Topics (getKafkaMetadata k metadata).1
  = match pubsub.Properties metadata !! "topics" with
    | Some val => if String.eqb val "" then [] else GoStrings.Split val ","
    | None => []
    end.
Proof.
  unfold getKafkaMetadata.
  destruct (pubsub.Properties metadata !! "brokers") as [val|];
    destruct (pubsub.Properties metadata !! "topics") as [val'|]; simpl;
    repeat match goal with |- context [String.eqb ?v ""] =>
             destruct (String.eqb v "") end; done.
Qed.

Lemma getKafkaMetadata_ConsumerGroup k (metadata : pubsub.Metadata) :
  ConsumerGroup (getKafkaMetadata k metadata).1
  = default "" (pubsub.Properties metadata !! "consumerGroup").
Proof.
  unfold getKafkaMetadata.
  destruct (pubsub.Properties metadata !! "brokers") as [val|];
    destruct (pubsub.Properties metadata !! "topics") as [val'|]; simpl;
    repeat match goal with |- context [String.eqb ?v ""] =>
             destruct (String.eqb v "") end; done.
Qed.

Lemma getKafkaMetadata_PublishTopic k (metadata : pubsub.Metadata) :
  PublishTopic (getKafkaMetadata k metadata).1 = "".
Proof.
  unfold getKafkaMetadata.
  destruct (pubsub.Properties metadata !! "brokers") as [val|];
    destruct (pubsub.Properties metadata !! "topics") as [val'|]; simpl;
    repeat match goal with |- context [String.eqb ?v ""] =>
             destruct (String.eqb v "") end; done.
Qed.

Lemma getKafkaMetadata_err k (metadata : pubsub.Metadata) :
  (getKafkaMetadata k metadata).2 = None.
Proof. done. Qed.

(** What the resolver makes of one comma-joined value. *)
Lemma resolve_joined (elems : list string) :
  Forall (λ x, GoStrings.lacks "," x = true) elems →
  elems ≠ [""] →
  (if String.eqb (GoStrings.Join elems ",") "" then []
   else GoStrings.Split (GoStrings.Join elems ",") ",") = elems.
Proof.
  intros Hall Hne.
  destruct (String.eqb_spec (GoStrings.Join elems ",") "") as [E|E].
  - by destruct (Join_empty _ _ E) as [->| ->].
  - apply Split_Join; [|done]. by intros ->.
Qed.

(** C6.  When [brokers] and [topics] hold lists joined with commas, the
    resolver yields exactly those lists, in order; a value without a comma
    comes out as the one-element list holding it; whatever a non-empty value
    is, joining the resolved list with commas gives the value back and no
    element holds a comma; and the property map of [TestParseMetadata] resolves
    to [Brokers[0] = "a"], [ConsumerGroup = "a"], [Topics[0] = "a"].  The list
    holding just the empty string is left out: it joins to the empty value,
    which resolves to the empty list. *)
Theorem getKafkaMetadata_splits_on_commas k :
  (∀ m (bs ts : list string),
     Forall (λ x, GoStrings.lacks "," x = true) bs →
     Forall (λ x, GoStrings.lacks "," x = true) ts →
     bs ≠ [""] → ts ≠ [""] →
     m !! "brokers" = Some (GoStrings.Join bs ",") →
     m !! "topics" = Some (GoStrings.Join ts ",") →
     ∃ meta,
       getKafkaMetadata k {| pubsub.Properties := m |} = (meta, None)
       ∧ Brokers meta = bs ∧ Topics meta = ts
       ∧ ConsumerGroup meta = default "" (m !! "consumerGroup"))
  ∧ (∀ m (a b : string),
       GoStrings.lacks "," a = true → GoStrings.lacks "," b = true →
       a ≠ "" → b ≠ "" →
       m !! "brokers" = Some a → m !! "topics" = Some b →
       Brokers (getKafkaMetadata k {| pubsub.Properties := m |}).1 = [a]
       ∧ Topics (getKafkaMetadata k {| pubsub.Properties := m |}).1 = [b])
  ∧ (∀ m (b t : string),
       b ≠ "" → t ≠ "" →
       m !! "brokers" = Some b → m !! "topics" = Some t →
       let meta := (getKafkaMetadata k {| pubsub.Properties := m |}).1 in
       GoStrings.Join (Brokers meta) "," = b
       ∧ Forall (λ x, GoStrings.lacks "," x = true) (Brokers meta)
       ∧ GoStrings.Join (Topics meta) "," = t
       ∧ Forall (λ x, GoStrings.lacks "," x = true) (Topics meta))
  ∧ (let meta :=
       (getKafkaMetadata k
          {| pubsub.Properties :=
               <["consumerGroup" := "a"]>
                 (<["brokers" := "a"]> (<["topics" := "a"]> ∅)) |}).1 in
     Brokers meta !! 0%nat = Some "a"
     ∧ ConsumerGroup meta = "a"
     ∧ Topics meta !! 0%nat = Some "a").
Proof.
  split; [|split; [|split]].
  - intros m bs ts Hbs Hts Hb Ht Hmb Hmt.
    exists (getKafkaMetadata k {| pubsub.Properties := m |}).1.
    split; [reflexivity|].
    rewrite getKafkaMetadata_Brokers, getKafkaMetadata_Topics,
      getKafkaMetadata_ConsumerGroup. simpl.
    rewrite Hmb, Hmt. by rewrite !resolve_joined.
  - intros m a b Ha Hb Hane Hbne Hma Hmb.
    rewrite getKafkaMetadata_Brokers, getKafkaMetadata_Topics. simpl.
    rewrite Hma, Hmb, !eqb_empty_false by done.
    by rewrite !Split_lacks.
  - intros m b t Hb Ht Hmb Hmt meta. subst meta.
    rewrite getKafkaMetadata_Brokers, getKafkaMetadata_Topics. simpl.
    rewrite Hmb, Hmt, !eqb_empty_false by done.
    rewrite !Join_Split. repeat split; apply Split_all_lack.
  - intros meta. subst meta.
    rewrite getKafkaMetadata_Brokers, getKafkaMetadata_Topics,
      getKafkaMetadata_ConsumerGroup. simpl.
    by vm_compute.
Qed.

(** C7.  The resolver never returns an error; a missing [brokers] or [topics]
    key, or one that maps to the empty string, resolves to the empty list, and
    a missing [consumerGroup] to the empty string. *)
Theorem getKafkaMetadata_never_fails k (metadata : pubsub.Metadata) :
  let m := pubsub.Properties metadata in
  let meta := (getKafkaMetadata k metadata).1 in
  (getKafkaMetadata k metadata).2 = None
  ∧ (m !! "brokers" = None ∨ m !! "brokers" = Some "" → Brokers meta = [])
  ∧ (m !! "topics" = None ∨ m !! "topics" = Some "" → Topics meta = [])
  ∧ (m !! "consumerGroup" = None → ConsumerGroup meta = "").
Proof.
  intros m meta. subst m meta.
  rewrite getKafkaMetadata_Brokers, getKafkaMetadata_Topics,
    getKafkaMetadata_ConsumerGroup.
  split; [done|]. split; [|split].
  - by intros [-> | ->].
  - by intros [-> | ->].
  - by intros ->.
Qed.

End metadata.

Lemma getKafkaMetadata_splits_on_commas_witness :
  let m : gmap string string :=
    <["brokers" := "k1:9092,k2:9092"]> (<["topics" := "orders,,payments"]> ∅)
  in
  ∃ meta,
    getKafkaMetadata Fake.adapter {| pubsub.Properties := m |} = (meta, None)
    ∧ Brokers meta = ["k1:9092"; "k2:9092"]
    ∧ Topics meta = ["orders"; ""; "payments"]
    ∧ ConsumerGroup meta = default "" (m !! "consumerGroup").
Proof.
  intros m.
  destruct (getKafkaMetadata_splits_on_commas Fake.adapter) as [Hsplit _].
  apply (Hsplit m ["k1:9092"; "k2:9092"] ["orders"; ""; "payments"]).
  - repeat constructor.
  - repeat constructor.
  - discriminate.
  - discriminate.
  - vm_compute. reflexivity.
  - vm_compute. reflexivity.
Defined.

Lemma getKafkaMetadata_never_fails_witness :
  Brokers (getKafkaMetadata Fake.adapter
             {| pubsub.Properties := <["brokers" := ""]> ∅ |}).1 = []
  ∧ Topics (getKafkaMetadata Fake.adapter
              {| pubsub.Properties := <["brokers" := ""]> ∅ |}).1 = []
  ∧ ConsumerGroup (getKafkaMetadata Fake.adapter
                     {| pubsub.Properties := <["brokers" := ""]> ∅ |}).1 = "".
Proof.
  destruct (getKafkaMetadata_never_fails Fake.adapter
              {| pubsub.Properties := <["brokers" := ""]> ∅ |})
    as (_ & Hb & Ht & Hg).
  split; [|split].
  - apply Hb. right. vm_compute. reflexivity.
  - apply Ht. left. vm_compute. reflexivity.
  - apply Hg. vm_compute. reflexivity.
Defined.

(** ** The monad's equations *)

Section monad.
Context `{sarama.API}.

Lemma bind_Ok {A B} (m : M A) (f : A → M B) (w w' : World) (a : A) :
  m w = Ok a w' → (m ≫= f) w = f a w'.
Proof. unfold mbind, M_bind. by intros ->. Qed.

Lemma bind_Panic {A B} (m : M A) (f : A → M B) (w w' : World) r :
  m w = Panic r w' → (m ≫= f) w = Panic r w'.
Proof. unfold mbind, M_bind. by intros ->. Qed.

Lemma constructions_app (t1 t2 : list Event) :
  constructions (t1 ++ t2) = constructions t1 ++ constructions t2.
Proof.
  induction t1 as [|ev t1 IH]; [done|].
  destruct ev; simpl; by rewrite ?IH.
Qed.

Lemma Consume_calls_app (t1 t2 : list Event) :
  Consume_calls (t1 ++ t2) = (Consume_calls t1 + Consume_calls t2)%nat.
Proof.
  induction t1 as [|ev t1 IH]; [done|].
  destruct ev; simpl; by rewrite ?IH.
Qed.

End monad.

(** ** The publish path *)

Section producer.
Context `{sarama.API}.
Implicit Types (k : Kafka) (w : World).

(** The configuration [getSyncProducer] hands to sarama. *)
Lemma getSyncProducer_eq k (meta : kafkaMetadata) w :
  let config :=
    {| sarama.Producer_RequiredAcks := sarama.WaitForAll;
       sarama.Producer_Retry_Max := 5;
       sarama.Producer_Return_Successes := true;
       sarama.Version := sarama.Version sarama.NewConfig |} in
  let out := sarama.NewSyncProducer (Brokers meta) config (ext w) in
  getSyncProducer k meta w
  = Ok (match out.1.2 with
        | Some e => (None, Some e)
        | None => (out.1.1, None)
        end)
       {| ext := out.2; chans := chans w;
          trace := trace w ++ [EvNewSyncProducer (Brokers meta) config] |}.
Proof.
  intros config out. subst out config.
  unfold getSyncProducer, mbind, M_bind, sarama_NewSyncProducer. simpl.
  destruct (sarama.NewSyncProducer _ _ _) as [[p [e|]] x]; reflexivity.
Qed.

(** [Init], computed. *)
Lemma Init_eq k (metadata : pubsub.Metadata) w :
  let meta := (getKafkaMetadata k metadata).1 in
  let config :=
    {| sarama.Producer_RequiredAcks := sarama.WaitForAll;
       sarama.Producer_Retry_Max := 5;
       sarama.Producer_Return_Successes := true;
       sarama.Version := sarama.Version sarama.NewConfig |} in
  let out := sarama.NewSyncProducer (Brokers meta) config (ext w) in
  Init k metadata w
  = Ok (match out.1.2 with
        | Some e => (k, Some e)
        | None =>
            ({| producer := out.1.1; topics := Topics meta;
                consumerGroup := ConsumerGroup meta;
                brokers := Brokers meta |}, None)
        end)
       {| ext := out.2; chans := chans w;
          trace := trace w ++ [EvNewSyncProducer (Brokers meta) config] |}.
Proof.
  intros meta config out. subst out config meta.
  unfold Init.
  change (getKafkaMetadata k metadata)
    with ((getKafkaMetadata k metadata).1, @None error) at 1.
  cbv beta iota. unfold mbind, M_bind.
  rewrite getSyncProducer_eq. cbv zeta.
  destruct (sarama.NewSyncProducer _ _ _) as [[p [e|]] x]; reflexivity.
Qed.

(** C3.  With a producer in place, [Publish] makes exactly one call of
    [SendMessage], for the message that holds the request's topic and payload;
    it returns the error of that call as it is, so nil exactly when the send
    succeeded; and it touches nothing else. *)
Theorem Publish_sends_exactly_once k (p : sarama.SyncProducer)
    (req : pubsub.PublishRequest) w :
  producer k = Some p →
  let msg := {| sarama.pm_Topic := pubsub.req_Topic req;
                sarama.pm_Value := pubsub.req_Data req |} in
  let out := sarama.SendMessage p msg (ext w) in
  Publish k req w
  = Ok out.1.2
       {| ext := out.2; chans := chans w;
          trace := trace w ++ [EvSendMessage p msg out.1.2] |}.
Proof.
  intros Hp msg out. subst out msg.
  unfold Publish. rewrite Hp.
  unfold mbind, M_bind, producer_SendMessage, sarama.ByteEncoder. simpl.
  destruct (sarama.SendMessage _ _ _) as [[[partition offset] [e|]] x];
    reflexivity.
Qed.

(** C8.  [Init] constructs one producer, whatever the metadata: its trace
    grows by exactly one [NewSyncProducer], whose configuration asks for the
    acknowledgement of all in-sync replicas, five retries and the return of
    successes.  [Publish] constructs none. *)
Theorem producer_constructed_once_by_Init k (metadata : pubsub.Metadata) w :
  (∃ (config : sarama.Config) (k' : Kafka) (r : option error) (w' : World),
     Init k metadata w = Ok (k', r) w'
     ∧ trace w' = trace w
         ++ [EvNewSyncProducer (Brokers (getKafkaMetadata k metadata).1) config]
     ∧ sarama.Producer_RequiredAcks config = sarama.WaitForAll
     ∧ sarama.Producer_Retry_Max config = 5
     ∧ sarama.Producer_Return_Successes config = true
     ∧ producer k'
       = match r with
         | None =>
             (sarama.NewSyncProducer (Brokers (getKafkaMetadata k metadata).1)
                config (ext w)).1.1
         | Some _ => producer k
         end)
  ∧ (∀ req : pubsub.PublishRequest,
       constructions (trace (res_world (Publish k req w)))
       = constructions (trace w)).
Proof.
  split.
  - rewrite Init_eq. cbv zeta.
    generalize (getKafkaMetadata k metadata).1 as meta. intros meta.
    destruct (sarama.NewSyncProducer _ _ _) as [[p [e|]] x] eqn:E; simpl;
      eexists _, _, _, _; (split; [reflexivity|]); simpl;
      rewrite ?E; repeat split; reflexivity.
  - intros req. unfold Publish.
    destruct (producer k) as [p|]; [|done].
    unfold mbind, M_bind, producer_SendMessage.
    destruct (sarama.SendMessage _ _ _) as [[[partition offset] [e|]] x];
      simpl; rewrite constructions_app; simpl; by rewrite app_nil_r.
Qed.

(** C9.  [Init] always returns.  When it returns an error the adapter is the
    one it was called on, field for field, and the error is the one metadata
    parsing or [NewSyncProducer] gave; when it returns nil, the four fields
    hold the new producer and the resolved brokers, topics and group. *)
Theorem Init_atomic_on_error k (metadata : pubsub.Metadata) w :
  let meta := (getKafkaMetadata k metadata).1 in
  let config :=
    {| sarama.Producer_RequiredAcks := sarama.WaitForAll;
       sarama.Producer_Retry_Max := 5;
       sarama.Producer_Return_Successes := true;
       sarama.Version := sarama.Version sarama.NewConfig |} in
  let constructed := sarama.NewSyncProducer (Brokers meta) config (ext w) in
  ∃ (k' : Kafka) (r : option error) (w' : World),
    Init k metadata w = Ok (k', r) w'
    ∧ match r with
      | Some e =>
          k' = k
          ∧ ((getKafkaMetadata k metadata).2 = Some e
             ∨ constructed.1.2 = Some e)
      | None =>
          (getKafkaMetadata k metadata).2 = None
          ∧ constructed.1.2 = None
          ∧ k' = {| producer := constructed.1.1;
                    topics := Topics meta;
                    consumerGroup := ConsumerGroup meta;
                    brokers := Brokers meta |}
      end.
Proof.
  intros meta config constructed. subst constructed config meta.
  rewrite Init_eq. cbv zeta.
  generalize (getKafkaMetadata k metadata).1 as meta. intros meta.
  destruct (sarama.NewSyncProducer _ _ _) as [[p [e|]] x] eqn:E; simpl.
  - eexists _, _, _. split; [reflexivity|]. simpl. auto.
  - eexists _, _, _. split; [reflexivity|]. simpl. auto.
Qed.

(** [Init] on an adapter whose properties name no broker: sarama refuses to
    construct the producer and the adapter stays as [NewKafka] made it. *)
Example Init_without_brokers :
  Init (NewKafka (H0 := Fake.api))
       {| pubsub.Properties := <["topics" := "orders"]> ∅ |} Fake.world0
  = Ok (NewKafka, Some "kafka: invalid configuration")
       (@Build_World Fake.runtime Fake.api 0%nat []
          [EvNewSyncProducer []
             {| sarama.Producer_RequiredAcks := -1;
                sarama.Producer_Retry_Max := 5;
                sarama.Producer_Return_Successes := true;
                sarama.Version := (0, 8, 2, 0) |}]).
Proof. vm_compute. reflexivity. Qed.

End producer.

Lemma Publish_sends_exactly_once_witness :
  Publish Fake.adapter
    {| pubsub.req_Data := [Byte.x01; Byte.x02; Byte.x03];
       pubsub.req_Topic := "orders" |} Fake.world0
  = Ok None
      (@Build_World Fake.runtime Fake.api 1%nat []
         [EvSendMessage (7%nat : sarama.SyncProducer)
            {| sarama.pm_Topic := "orders";
               sarama.pm_Value := [Byte.x01; Byte.x02; Byte.x03] |}
            None]).
Proof.
  exact (Publish_sends_exactly_once Fake.adapter (7%nat : sarama.SyncProducer)
           {| pubsub.req_Data := [Byte.x01; Byte.x02; Byte.x03];
              pubsub.req_Topic := "orders" |} Fake.world0 eq_refl).
Defined.

(** ** The session handler *)

Section consumer.
Context `{sarama.API}.
Implicit Types (c : consumer) (w : World) (m : sarama.ConsumerMessage).

(** The message the handler is given for the record [m] of [claim]. *)
Local Abbreviation delivered claim m :=
  {| pubsub.msg_Data := sarama.cm_Value m;
     pubsub.msg_Topic := sarama.claim_Topic claim |}.

(** The three ways a record can leave its mark on the trace. *)
Local Abbreviation handled c claim :=
  (λ (m : sarama.ConsumerMessage) (seg : list Event),
     (callback c = None ∧ seg = [EvRecv m])
     ∨ (callback c ≠ None
        ∧ seg = [EvRecv m; EvCallback (delivered claim m) None;
                 EvMarkMessage m ""])
     ∨ (callback c ≠ None
        ∧ ∃ e, seg = [EvRecv m; EvCallback (delivered claim m) (Some e)])).

(** Membership in a stretch of the trace that is written out. *)
Local Ltac in_segment :=
  repeat match goal with
         | Hin : _ ∈ _ :: _ |- _ => apply elem_of_cons in Hin as [Hin|Hin]
         | Hin : _ ∈ [] |- _ => by apply elem_of_nil in Hin
         | |- _ ∉ _ => intros ?
         end;
  rewrite ?elem_of_cons, ?elem_of_nil; naive_solver.

Lemma Setup_open c (session : sarama.ConsumerGroupSession) (i : nat) w :
  ready c = Some i → chans w !! i = Some Open →
  Setup c session w = Ok None (set_chans (<[i:=Closed]> (chans w)) w).
Proof.
  intros Hc Hi. unfold Setup, mbind, M_bind, close. by rewrite Hc, Hi.
Qed.

Lemma Setup_closed c (session : sarama.ConsumerGroupSession) (i : nat) w :
  ready c = Some i → chans w !! i = Some Closed →
  Setup c session w = Panic "close of closed channel" w.
Proof.
  intros Hc Hi. unfold Setup, mbind, M_bind, close. by rewrite Hc, Hi.
Qed.

(** C2, as the code has it.  On a consumer whose gate is unreleased, [Setup]
    releases that gate, leaves every other channel alone and returns nil.  It
    is not idempotent: called again on the same consumer, whose gate is now
    released, it panics, for Go does not allow closing a closed channel. *)
Theorem Setup_releases_an_unreleased_gate c
    (session : sarama.ConsumerGroupSession) (i : nat) w :
  ready c = Some i → chans w !! i = Some Open →
  ∃ w',
    Setup c session w = Ok None w'
    ∧ is_closed (ready c) w' = true
    ∧ (∀ j, j ≠ i → chans w' !! j = chans w !! j)
    ∧ ext w' = ext w ∧ trace w' = trace w
    ∧ ∀ session', Setup c session' w' = Panic "close of closed channel" w'.
Proof.
  intros Hc Hi.
  assert (i < length (chans w))%nat as Hlt by by eapply lookup_lt_Some.
  exists (set_chans (<[i:=Closed]> (chans w)) w).
  split; [by apply Setup_open|].
  split; [|split; [|split; [|split]]]; try done.
  - rewrite Hc. simpl. by rewrite list_lookup_insert_eq.
  - intros j Hj. simpl. by rewrite list_lookup_insert_ne.
  - intros session'. apply (Setup_closed _ _ i); [done|].
    simpl. by rewrite list_lookup_insert_eq.
Qed.

Lemma handle_one c (session : sarama.ConsumerGroupSession)
    (claim : sarama.ConsumerGroupClaim) m w :
  ∃ w' seg,
    (recv_message m ≫= λ _, ConsumeClaim_body c session claim m) w = Ok tt w'
    ∧ chans w' = chans w
    ∧ trace w' = trace w ++ seg
    ∧ handled c claim m seg.
Proof.
  unfold ConsumeClaim_body, mbind, M_bind, recv_message.
  destruct (callback c) as [cb|] eqn:Hcb; simpl.
  - unfold call_handler, session_MarkMessage. simpl.
    destruct (cb _ _) as [[e|] x]; simpl.
    + eexists _, _. split; [reflexivity|]. simpl.
      split; [done|]. split; [by rewrite <- app_assoc|].
      right. right. split; [done|]. by exists e.
    + eexists _, _. split; [reflexivity|]. simpl.
      split; [done|]. split; [by rewrite <- !app_assoc|].
      right. left. by split.
  - eexists _, _. split; [reflexivity|]. simpl.
    split; [done|]. split; [done|]. by left.
Qed.

Lemma handle_all c (session : sarama.ConsumerGroupSession)
    (claim : sarama.ConsumerGroupClaim)
    (messages : list sarama.ConsumerMessage) w :
  ∃ w' segs,
    range_Messages (ConsumeClaim_body c session claim) messages w = Ok tt w'
    ∧ chans w' = chans w
    ∧ trace w' = trace w ++ concat segs
    ∧ Forall2 (handled c claim) messages segs.
Proof.
  revert w. induction messages as [|m rest IH]; intros w.
  - exists w, []. simpl. by rewrite app_nil_r.
  - destruct (handle_one c session claim m w) as (w1 & seg & E1 & C1 & T1 & S1).
    destruct (IH w1) as (w2 & segs & E2 & C2 & T2 & S2).
    exists w2, (seg :: segs). split; [|split; [|split]].
    + change (range_Messages _ (m :: rest))
        with (recv_message m ≫= λ _,
              ConsumeClaim_body c session claim m ≫= λ _,
              range_Messages (ConsumeClaim_body c session claim) rest).
      revert E1. unfold mbind, M_bind, recv_message.
      destruct (ConsumeClaim_body c session claim m _) as [[] w1'|];
        [|done].
      by intros [= ->].
    + congruence.
    + simpl. by rewrite T2, T1, app_assoc.
    + by constructor.
Qed.

(** C1.  [ConsumeClaim] goes through the records of the claim in order, and
    what it does for each is a stretch of the trace of its own.  In the stretch
    of a record, the record's offset is marked if and only if the handler was
    called with the claim's topic and the record's payload and returned nil;
    when the handler returned an error, nothing is marked; and nothing but
    this record is ever marked, and the handler sees nothing but this
    record.  The topic handed over is the claim's, which is the record's own
    for the records sarama puts into a claim. *)
Theorem ConsumeClaim_marks_iff_callback_succeeded c
    (session : sarama.ConsumerGroupSession)
    (claim : sarama.ConsumerGroupClaim) w :
  ∃ w' segs,
    ConsumeClaim c session claim w = Ok None w'
    ∧ trace w' = trace w ++ concat segs
    ∧ Forall2
        (λ m seg,
           handled c claim m seg
           ∧ (EvMarkMessage m "" ∈ seg
              ↔ EvCallback (delivered claim m) None ∈ seg)
           ∧ (∀ e, EvCallback (delivered claim m) (Some e) ∈ seg →
                   ∀ m' metadata, EvMarkMessage m' metadata ∉ seg)
           ∧ (∀ m' metadata, EvMarkMessage m' metadata ∈ seg →
                   m' = m ∧ metadata = "")
           ∧ (∀ msg r, EvCallback msg r ∈ seg →
                   msg = delivered claim m ∧ callback c ≠ None)
           ∧ (sarama.cm_Topic m = sarama.claim_Topic claim →
                delivered claim m
                = {| pubsub.msg_Data := sarama.cm_Value m;
                     pubsub.msg_Topic := sarama.cm_Topic m |}))
        (sarama.claim_Messages claim) segs.
Proof.
  destruct (handle_all c session claim (sarama.claim_Messages claim) w)
    as (w' & segs & E & _ & T & S).
  exists w', segs. split; [|split; [done|]].
  - unfold ConsumeClaim. by rewrite (bind_Ok _ _ _ _ _ E).
  - eapply Forall2_impl; [exact S|].
    intros m seg Hseg. split; [exact Hseg|].
    destruct Hseg as [[Hcb ->]|[[Hcb ->]|[Hcb [e ->]]]].
    + repeat split; intros; try in_segment; congruence.
    + repeat split; intros; try in_segment; congruence.
    + repeat split; intros; try in_segment; congruence.
Qed.

Lemma range_without_callback c (session : sarama.ConsumerGroupSession)
    (claim : sarama.ConsumerGroupClaim)
    (messages : list sarama.ConsumerMessage) w :
  callback c = None →
  range_Messages (ConsumeClaim_body c session claim) messages w
  = Ok tt {| ext := ext w; chans := chans w;
             trace := trace w ++ map EvRecv messages |}.
Proof.
  intros Hcb.
  assert (ConsumeClaim_body c session claim = λ _, mret tt) as ->.
  { unfold ConsumeClaim_body. by rewrite Hcb. }
  revert w. induction messages as [|m rest IH]; intros w.
  - simpl. rewrite app_nil_r. by destruct w.
  - simpl. unfold mbind, M_bind, recv_message, mret, M_ret.
    rewrite IH. simpl. by rewrite <- app_assoc.
Qed.

(** C10.  Without a handler, [ConsumeClaim] takes every record of the claim
    off the channel and does nothing else: no call, no mark, no change to the
    outside; and it returns nil. *)
Theorem ConsumeClaim_without_callback c
    (session : sarama.ConsumerGroupSession)
    (claim : sarama.ConsumerGroupClaim) w :
  callback c = None →
  ConsumeClaim c session claim w
  = Ok None {| ext := ext w; chans := chans w;
               trace := trace w ++ map EvRecv (sarama.claim_Messages claim) |}.
Proof.
  intros Hcb. unfold ConsumeClaim.
  by rewrite (bind_Ok _ _ _ _ _ (range_without_callback c session claim _ w Hcb)).
Qed.

End consumer.

(** The fake claim, handled by the picky handler: the first and the third
    record are marked, the second, whose payload is empty, is not. *)
Example ConsumeClaim_orders :
  trace (res_world
           (ConsumeClaim Fake.picky_consumer Fake.session Fake.orders
              Fake.world0))
  = [EvRecv (Fake.record 0 [Byte.x01]);
     EvCallback {| pubsub.msg_Data := [Byte.x01];
                   pubsub.msg_Topic := "orders" |} None;
     EvMarkMessage (Fake.record 0 [Byte.x01]) "";
     EvRecv (Fake.record 1 []);
     EvCallback {| pubsub.msg_Data := []; pubsub.msg_Topic := "orders" |}
                (Some "empty payload");
     EvRecv (Fake.record 2 [Byte.x02; Byte.x03]);
     EvCallback {| pubsub.msg_Data := [Byte.x02; Byte.x03];
                   pubsub.msg_Topic := "orders" |} None;
     EvMarkMessage (Fake.record 2 [Byte.x02; Byte.x03]) ""].
Proof. vm_compute. reflexivity. Qed.

Lemma ConsumeClaim_marks_iff_callback_succeeded_witness :
  ∃ w' segs,
    ConsumeClaim Fake.picky_consumer Fake.session Fake.orders Fake.world0
    = Ok None w'
    ∧ trace w' = trace Fake.world0 ++ concat segs
    ∧ length segs = 3%nat.
Proof.
  destruct (ConsumeClaim_marks_iff_callback_succeeded
              Fake.picky_consumer Fake.session Fake.orders Fake.world0)
    as (w' & segs & E & T & S).
  exists w', segs. split; [exact E|]. split; [exact T|].
  symmetry. exact (Forall2_length _ _ _ S).
Defined.

Lemma ConsumeClaim_without_callback_witness :
  ConsumeClaim Fake.bare_consumer Fake.session Fake.orders Fake.world0
  = Ok None
      (@Build_World Fake.runtime Fake.api 0%nat []
         [EvRecv (Fake.record 0 [Byte.x01]); EvRecv (Fake.record 1 []);
          EvRecv (Fake.record 2 [Byte.x02; Byte.x03])]).
Proof.
  exact (ConsumeClaim_without_callback Fake.bare_consumer Fake.session
           Fake.orders Fake.world0 eq_refl).
Defined.

(** C2, as the spec has it, fails: the second [Setup] on one and the same
    consumer is not a call without effect, it brings the process down. *)
Lemma Setup_twice_panics :
  Setup Fake.gated_consumer Fake.session Fake.world_open
  = Ok None Fake.world_closed
  ∧ Setup Fake.gated_consumer Fake.session Fake.world_closed
    = Panic "close of closed channel" Fake.world_closed
  ∧ ¬ (∃ r w, Setup Fake.gated_consumer Fake.session Fake.world_closed
              = Ok r w).
Proof.
  split; [reflexivity|]. split; [reflexivity|].
  intros (r & w & E). discriminate E.
Qed.

Lemma Setup_releases_an_unreleased_gate_witness :
  ∃ w',
    Setup Fake.gated_consumer Fake.session Fake.world_open = Ok None w'
    ∧ is_closed (Some 0%nat) w' = true.
Proof.
  destruct (Setup_releases_an_unreleased_gate Fake.gated_consumer
              Fake.session 0%nat Fake.world_open eq_refl eq_refl)
    as (w' & E & Hclosed & _).
  exists w'. split; [exact E | exact Hclosed].
Defined.

(** ** The subscribe path *)

Section subscribe.
Context `{sarama.API}.
Variable k : Kafka.
Variable handler : option Handler.
Implicit Types (s : SubState) (p : Proc) (l : Label) (sched : list Label).

Lemma run_app sched1 sched2 p :
  run k handler (sched1 ++ sched2) p
  = run k handler sched1 p ≫= run k handler sched2.
Proof.
  revert p. induction sched1 as [|l sched1 IH]; intros p; [done|].
  destruct p as [s| |]; simpl; [|done..].
  destruct (step k handler l s) as [p'|]; simpl; [apply IH|done].
Qed.

Lemma run_snoc sched l p p' :
  run k handler (sched ++ [l]) p = Some p' →
  ∃ s, run k handler sched p = Some (Running s)
       ∧ step k handler l s = Some p'.
Proof.
  rewrite run_app.
  destruct (run k handler sched p) as [[s| |]|]; simpl; try done.
  destruct (step k handler l s) as [q|] eqn:E; simpl; [|done].
  intros [= ->]. by exists s.
Qed.

Lemma run_cons_Running l sched s p :
  run k handler (l :: sched) (Running s) = Some p →
  ∃ q, step k handler l s = Some q ∧ run k handler sched q = Some p.
Proof.
  simpl. destruct (step k handler l s) as [q|]; simpl; [|done].
  intros E. by exists q.
Qed.

Lemma run_stopped sched p q :
  (∀ s, p ≠ Running s) → run k handler sched p = Some q → q = p.
Proof.
  intros Hp. destruct sched as [|l sched]; simpl.
  - by intros [= ->].
  - destruct p as [s| |]; [by destruct (Hp s)|done..].
Qed.

(** Every step of a running process keeps the invariant. *)
Lemma step_Inv l s s' :
  Inv s → step k handler l s = Some (Running s') → Inv s'.
Proof.
  destruct s as [w cs err client ctx wg notify sig main loop].
  unfold Inv, step, step_main, step_loop, Subscribe_prologue, exec.
  simpl. intros HI Hstep.
  destruct l, main, loop; simpl in *;
    repeat (case_match; simplify_eq/=);
    simplify_eq/=; naive_solver lia.
Qed.

Lemma run_Inv sched s s' :
  Inv s → run k handler sched (Running s) = Some (Running s') → Inv s'.
Proof.
  revert s. induction sched as [|l sched IH]; intros s HI.
  - by intros [= <-].
  - intros (q & Hstep & Hrun)%run_cons_Running.
    destruct q as [s1| |].
    + eapply IH; [|done]. by eapply step_Inv.
    + by apply run_stopped in Hrun.
    + by apply run_stopped in Hrun.
Qed.

Lemma Subscribe_Inv (req : pubsub.SubscribeRequest) sched (w : World) s :
  Subscribe k req handler sched w = Some (Running s) → Inv s.
Proof.
  apply run_Inv. unfold Inv. simpl. auto.
Qed.

(** Only the calling goroutine moves the calling goroutine. *)
Lemma step_keeps_main l s s' :
  l ≠ Main → step k handler l s = Some (Running s') →
  st_main s' = st_main s.
Proof.
  destruct s as [w cs err client ctx wg notify sig main loop].
  unfold step, step_loop, exec. simpl. intros Hl Hstep.
  destruct l, loop; simpl in *;
    repeat (case_match; simplify_eq/=); simplify_eq/=; done.
Qed.

(** Once the caller is past its prologue, only the loop goroutine and the
    return of [client.Consume] move the loop. *)
Lemma step_keeps_loop l s s' :
  l ≠ Loop → (∀ e, l ≠ ConsumeReturn e) → st_main s ≠ M_Start →
  step k handler l s = Some (Running s') →
  st_loop s' = st_loop s.
Proof.
  destruct s as [w cs err client ctx wg notify sig main loop].
  unfold step, step_main, exec. simpl. intros Hl Hr Hm Hstep.
  destruct l, main; simpl in *;
    repeat (case_match; simplify_eq/=); simplify_eq/=; try done;
    exfalso; by eapply Hr.
Qed.

(** A loop that has ended stays ended, and [client.Consume] is not called
    any more. *)
Lemma step_after_Done l s p :
  Inv s → st_loop s = L_Done → step k handler l s = Some p →
  Consume_calls (trace (proc_world p)) = Consume_calls (trace (st_world s))
  ∧ ∀ s', p = Running s' → st_loop s' = L_Done.
Proof.
  destruct s as [w cs err client ctx wg notify sig main loop].
  unfold Inv, step, step_main, step_loop, Subscribe_prologue, exec,
    client_Close.
  simpl. intros HI -> Hstep.
  destruct l, main; simpl in *;
    repeat (case_match; simplify_eq/=); simplify_eq/=;
    rewrite ?Consume_calls_app; simpl; split; try lia; try naive_solver.
Qed.

Lemma run_after_Done sched s p :
  Inv s → st_loop s = L_Done → run k handler sched (Running s) = Some p →
  Consume_calls (trace (proc_world p)) = Consume_calls (trace (st_world s)).
Proof.
  revert s. induction sched as [|l sched IH]; intros s HI Hdone.
  - by intros [= <-].
  - intros (q & Hstep & Hrun)%run_cons_Running.
    destruct (step_after_Done l s q HI Hdone Hstep) as [Hcalls Hq].
    destruct q as [s1| |].
    + rewrite <- Hcalls. apply IH; [by eapply step_Inv|by apply Hq|done].
    + apply run_stopped in Hrun as ->; done.
    + apply run_stopped in Hrun as ->; done.
Qed.

(** While the loop stands before line 132, nothing but the loop moves it. *)
Lemma run_others_keep_Reset sched s s' :
  Inv s → st_loop s = L_Reset → Forall (λ l, l ≠ Loop) sched →
  run k handler sched (Running s) = Some (Running s') →
  st_loop s' = L_Reset.
Proof.
  revert s. induction sched as [|l sched IH]; intros s HI Hloop Hsched.
  - by intros [= <-].
  - apply Forall_cons in Hsched as [Hl Hsched].
    intros (q & Hstep & Hrun)%run_cons_Running.
    destruct q as [s1| |];
      [|by apply run_stopped in Hrun|by apply run_stopped in Hrun].
    apply (IH s1); [by eapply step_Inv| |done..].
    rewrite <- Hloop. eapply step_keeps_loop; [done| | |done].
    + intros e ->. simpl in Hstep. by rewrite Hloop in Hstep.
    + unfold Inv in HI. rewrite Hloop in HI. tauto.
Qed.

(** [client] is assigned once, on line 111: past the prologue no step of
    anyone writes it. *)
Lemma step_keeps_client l s s' :
  st_main s ≠ M_Start → step k handler l s = Some (Running s') →
  st_client s' = st_client s ∧ st_main s' ≠ M_Start.
Proof.
  destruct s as [w cs err client ctx wg notify sig main loop].
  unfold step, step_main, step_loop, exec. simpl. intros Hm Hstep.
  destruct l, main, loop; simpl in *;
    repeat (case_match; simplify_eq/=); simplify_eq/=; done.
Qed.

Lemma run_keeps_client sched s s' :
  st_main s ≠ M_Start →
  run k handler sched (Running s) = Some (Running s') →
  st_client s' = st_client s.
Proof.
  revert s. induction sched as [|l sched IH]; intros s Hm.
  - by intros [= <-].
  - intros (q & Hstep & Hrun)%run_cons_Running.
    destruct q as [s1| |];
      [|by apply run_stopped in Hrun|by apply run_stopped in Hrun].
    destruct (step_keeps_client l s s1 Hm Hstep) as [<- Hm1].
    by apply IH.
Qed.

Lemma step_has_client l s s' :
  Inv s → has_client s → step k handler l s = Some (Running s') →
  has_client s'.
Proof.
  destruct s as [w cs err client ctx wg notify sig main loop].
  unfold Inv, has_client, step, step_main, step_loop, Subscribe_prologue,
    exec.
  simpl. intros HI HC Hstep.
  destruct l, main, loop; simpl in *;
    repeat (case_match; simplify_eq/=);
    simplify_eq/=; naive_solver.
Qed.

Lemma run_has_client sched s s' :
  Inv s → has_client s →
  run k handler sched (Running s) = Some (Running s') → has_client s'.
Proof.
  revert s. induction sched as [|l sched IH]; intros s HI HC.
  - by intros [= <-].
  - intros (q & Hstep & Hrun)%run_cons_Running.
    destruct q as [s1| |];
      [|by apply run_stopped in Hrun|by apply run_stopped in Hrun].
    eapply IH; [| |done]; [by eapply step_Inv|by eapply step_has_client].
Qed.

Lemma Subscribe_has_client (req : pubsub.SubscribeRequest) sched (w : World)
    s :
  Subscribe k req handler sched w = Some (Running s) → has_client s.
Proof.
  apply run_has_client; [unfold Inv; simpl; auto|done].
Qed.

(** While the loop stands before line 125, the others leave the gate and
    the channels alone. *)
Lemma step_others_before_Consume l s s' :
  l ≠ Loop → Inv s → st_loop s = L_Consume →
  step k handler l s = Some (Running s') →
  st_loop s' = L_Consume ∧ st_cs s' = st_cs s
  ∧ chans (st_world s') = chans (st_world s).
Proof.
  destruct s as [w cs err client ctx wg notify sig main loop].
  unfold Inv, step, step_main, step_loop, Subscribe_prologue, exec,
    client_Close.
  simpl. intros Hl HI -> Hstep.
  destruct l, main; simpl in *;
    repeat (case_match; simplify_eq/=); simplify_eq/=; naive_solver.
Qed.

Lemma run_others_before_Consume sched s s' :
  Inv s → st_loop s = L_Consume → Forall (λ l, l ≠ Loop) sched →
  run k handler sched (Running s) = Some (Running s') →
  st_loop s' = L_Consume ∧ st_cs s' = st_cs s
  ∧ chans (st_world s') = chans (st_world s).
Proof.
  revert s. induction sched as [|l sched IH]; intros s HI Hloop Hsched.
  - by intros [= <-].
  - apply Forall_cons in Hsched as [Hl Hsched].
    intros (q & Hstep & Hrun)%run_cons_Running.
    destruct q as [s1| |];
      [|by apply run_stopped in Hrun|by apply run_stopped in Hrun].
    destruct (step_others_before_Consume l s s1 Hl HI Hloop Hstep)
      as (Hloop1 & Hcs1 & Hch1).
    destruct (IH s1) as (? & ? & ?); [by eapply step_Inv|done..|].
    split; [done|]. split; congruence.
Qed.
(** C4.  In every state [Subscribe] can reach: when [client.Consume] returns,
    whatever it returns, the loop comes to its check of the context.  If the
    context is cancelled at that check, the loop ends, without a panic and
    with the WaitGroup released, and however the process goes on,
    [client.Consume] is never called again.  If it is not cancelled, [client]
    is not nil and the loop goes on to line 132; whatever the other goroutine
    and the outside do in between, its next step puts a channel into
    [cs.ready] that did not exist before and is not closed; and whatever they
    do after that, the step that follows is line 125 again: it does not
    panic, it calls [client.Consume] on the same client with [k.topics],
    once, and the call is under way with the new gate still in [cs.ready] and
    still not closed. *)
Theorem consume_loop_obeys_cancellation (req : pubsub.SubscribeRequest)
    (w : World) sched s :
  Subscribe k req handler sched w = Some (Running s) →
  (st_loop s = L_InConsume →
     ∀ e, ∃ s',
       step k handler (ConsumeReturn e) s = Some (Running s')
       ∧ st_loop s' = L_Check ∧ st_ctx s' = st_ctx s ∧ st_cs s' = st_cs s)
  ∧ (st_loop s = L_Check → st_ctx s = true →
     ∃ s',
       step k handler Loop s = Some (Running s')
       ∧ st_loop s' = L_Done ∧ st_wg s' = 0 ∧ st_world s' = st_world s
       ∧ ∀ sched' p,
           run k handler sched' (Running s') = Some p →
           Consume_calls (trace (proc_world p))
           = Consume_calls (trace (st_world s)))
  ∧ (st_loop s = L_Check → st_ctx s = false →
     ∃ s1 (client : sarama.ConsumerGroup),
       step k handler Loop s = Some (Running s1)
       ∧ st_loop s1 = L_Reset ∧ st_world s1 = st_world s
       ∧ st_client s = Some client
       ∧ ∀ sched' s1',
           Forall (λ l, l ≠ Loop) sched' →
           run k handler sched' (Running s1) = Some (Running s1') →
           ∃ s2 (i : nat),
             step k handler Loop s1' = Some (Running s2)
             ∧ st_loop s2 = L_Consume
             ∧ ready (st_cs s2) = Some i
             ∧ chans (st_world s1') !! i = None
             ∧ chans (st_world s2) !! i = Some Open
             ∧ (∀ j, j ≠ i →
                  chans (st_world s2) !! j = chans (st_world s1') !! j)
             ∧ callback (st_cs s2) = callback (st_cs s1')
             ∧ st_client s2 = Some client
             ∧ ∀ sched'' s2',
                 Forall (λ l, l ≠ Loop) sched'' →
                 run k handler sched'' (Running s2) = Some (Running s2') →
                 ∃ s3,
                   step k handler Loop s2' = Some (Running s3)
                   ∧ st_loop s3 = L_InConsume
                   ∧ st_client s3 = Some client
                   ∧ trace (st_world s3)
                     = trace (st_world s2') ++ [EvConsume (topics k)]
                   ∧ Consume_calls (trace (st_world s3))
                     = S (Consume_calls (trace (st_world s2')))
                   ∧ st_cs s3 = st_cs s2
                   ∧ chans (st_world s3) !! i = Some Open).
Proof.
  intros Hsub.
  pose proof (Subscribe_has_client req sched w s Hsub) as HC.
  apply Subscribe_Inv in Hsub as HI. split; [|split].
  - intros Hloop e. simpl. rewrite Hloop.
    destruct e as [e|]; eexists; (split; [reflexivity|]); done.
  - intros Hloop Hctx.
    assert (st_wg s = 1) as Hwg.
    { unfold Inv in HI. rewrite Hloop in HI. tauto. }
    assert (step k handler Loop s
            = Some (Running (set_loop L_Done (set_wg 0 s)))) as Hstep.
    { simpl. unfold step_loop. by rewrite Hloop, Hctx, Hwg. }
    eexists. split; [exact Hstep|]. do 3 (split; [done|]).
    intros sched' p Hrun.
    apply run_after_Done in Hrun; [done| |done].
    by eapply step_Inv.
  - intros Hloop Hctx.
    assert (step k handler Loop s = Some (Running (set_loop L_Reset s)))
      as Hstep.
    { simpl. unfold step_loop. by rewrite Hloop, Hctx. }
    assert (st_main s ≠ M_Start) as Hm.
    { unfold Inv in HI. rewrite Hloop in HI. tauto. }
    unfold has_client in HC. rewrite Hloop in HC. destruct HC as [client HC].
    exists (set_loop L_Reset s), client.
    split; [exact Hstep|]. do 3 (split; [done|]).
    intros sched' s1' Hsched Hrun.
    assert (Inv (set_loop L_Reset s)) as HI1 by by eapply step_Inv.
    assert (st_loop s1' = L_Reset) as Hreset.
    { by apply (run_others_keep_Reset sched' (set_loop L_Reset s)). }
    assert (Inv s1') as HI1' by by eapply run_Inv.
    assert (st_client s1' = Some client) as HC1'.
    { rewrite <- HC. by apply (run_keeps_client sched' (set_loop L_Reset s)). }
    set (s2 := set_loop L_Consume
              (set_cs {| ready := Some (length (chans (st_world s1')));
                         callback := callback (st_cs s1') |}
                 (set_world (set_chans (chans (st_world s1') ++ [Open])
                               (st_world s1')) s1'))).
    assert (step k handler Loop s1' = Some (Running s2)) as Hstep2.
    { simpl. unfold step_loop. by rewrite Hreset. }
    exists s2, (length (chans (st_world s1'))).
    split; [done|].
    split; [done|split; [done|split; [|split; [|split; [|split; [|split]]]]]].
    + by apply lookup_ge_None.
    + simpl. by apply list_lookup_middle.
    + intros j Hj. simpl.
      destruct (decide (j < length (chans (st_world s1')))%nat).
      * by rewrite lookup_app_l.
      * rewrite !lookup_ge_None_2; [done|lia|].
        rewrite length_app. simpl. lia.
    + done.
    + done.
    + intros sched'' s2' Hsched' Hrun'.
      assert (Inv s2) as HI2 by by eapply step_Inv.
      destruct (run_others_before_Consume sched'' s2 s2' HI2 eq_refl
                  Hsched' Hrun') as (Hloop2' & Hcs2' & Hch2').
      assert (st_client s2' = Some client) as HC2'.
      { rewrite <- HC1'.
        apply (run_keeps_client sched'' s2); [|done].
        unfold Inv in HI2. simpl in HI2. tauto. }
      exists (set_loop L_InConsume
                (set_world (emit (EvConsume (topics k)) (st_world s2')) s2')).
      split; [|split; [done|split; [done|split; [done|split; [|split]]]]].
      * simpl. unfold step_loop. by rewrite Hloop2', HC2'.
      * simpl. rewrite Consume_calls_app. simpl. lia.
      * done.
      * simpl. rewrite Hch2'. simpl. by apply list_lookup_middle.
Qed.

(** How [Subscribe] comes to return: either its prologue fails to construct
    the client, or it gets to line 143 and returns what [client.Close()]
    returns there. *)
Lemma Subscribe_return_origin (req : pubsub.SubscribeRequest) (w : World)
    sched p (r : option error) :
  Subscribe k req handler sched w = Some p → returned p = Some r →
  (∃ sched1 sched2 s0 (e : error),
     sched = sched1 ++ Main :: sched2
     ∧ Subscribe k req handler sched1 w = Some (Running s0)
     ∧ st_main s0 = M_Start
     ∧ (sarama.NewConsumerGroup (brokers k) (consumerGroup k)
          {| sarama.Producer_RequiredAcks :=
               sarama.Producer_RequiredAcks sarama.NewConfig;
             sarama.Producer_Retry_Max :=
               sarama.Producer_Retry_Max sarama.NewConfig;
             sarama.Producer_Return_Successes :=
               sarama.Producer_Return_Successes sarama.NewConfig;
             sarama.Version := sarama.V1_0_0_0 |}
          (ext (st_world s0))).1.2 = Some e
     ∧ r = Some e)
  ∨ (∃ sched1 sched2 s1 (client : sarama.ConsumerGroup),
       sched = sched1 ++ Main :: sched2
       ∧ Subscribe k req handler sched1 w = Some (Running s1)
       ∧ st_main s1 = M_Close ∧ st_loop s1 = L_Done
       ∧ st_client s1 = Some client
       ∧ r = (sarama.Close client (ext (st_world s1))).1).
Proof.
  revert p r. induction sched as [|l sched IH] using rev_ind; intros p r.
  - intros [= <-]. done.
  - intros (s & Hrun & Hstep)%run_snoc Hret.
    destruct p as [s'| |]; [|done..].
    destruct (returned (Running s)) as [r0|] eqn:Hret0.
    + (* [Subscribe] had returned before this step *)
      assert (l ≠ Main) as Hl.
      { intros ->. simpl in *. unfold step_main in Hstep.
        by destruct (st_main s). }
      pose proof (step_keeps_main l s s' Hl Hstep) as Hmain.
      assert (r = r0) as ->.
      { simpl in *. rewrite Hmain in Hret.
        destruct (st_main s); congruence. }
      destruct (IH _ _ Hrun Hret0)
        as [(s1 & s2 & s0 & e & -> & ?)|(s1 & s2 & s0 & c & -> & ?)].
      * left. exists s1, (s2 ++ [l]), s0, e.
        split; [by rewrite <- app_assoc|done].
      * right. exists s1, (s2 ++ [l]), s0, c.
        split; [by rewrite <- app_assoc|done].
    + (* it returns in this step *)
      assert (l = Main ∨ l ≠ Main) as [->|Hl]
        by (destruct l; (by left) || by right).
      2:{ pose proof (step_keeps_main l s s' Hl Hstep) as Hmain.
          simpl in *. rewrite Hmain in Hret. congruence. }
      pose proof (Subscribe_Inv req _ _ _ Hrun) as HI.
      clear IH. revert Hstep Hret HI Hret0. unfold Inv. simpl.
      unfold step_main, Subscribe_prologue, exec, mbind, M_bind, make_chan,
        sarama_NewConsumerGroup, client_Close, mret, M_ret.
      destruct (st_main s) eqn:Hmain; simpl; intros Hstep Hret HI _;
        repeat (case_match; simplify_eq/=); simplify_eq/=.
      all: try by (exfalso; destruct (st_loop s); naive_solver).
      * left. exists sched, [], s. eexists.
        do 3 (split; [done|]). split; [|done].
        match goal with E : sarama.NewConsumerGroup _ _ _ _ = _ |- _ =>
          by rewrite E end.
      * right. exists sched, [], s. eexists.
        do 3 (split; [done|]).
        split; [destruct (st_loop s); naive_solver|].
        split; [done|].
        match goal with E : sarama.Close _ _ = _ |- _ => by rewrite E end.
      * right. exists sched, [], s. eexists.
        do 3 (split; [done|]).
        split; [destruct (st_loop s); naive_solver|].
        split; [done|].
        match goal with E : sarama.Close _ _ = _ |- _ => by rewrite E end.
Qed.

Lemma run_step l sched s p :
  step k handler l s = Some p →
  run k handler (l :: sched) (Running s) = run k handler sched p.
Proof. simpl. by intros ->. Qed.

(** The prologue, when the client can be constructed. *)
Lemma prologue_ok s (client : option sarama.ConsumerGroup) (x : Ext) :
  st_main s = M_Start →
  sarama.NewConsumerGroup (brokers k) (consumerGroup k)
    {| sarama.Producer_RequiredAcks :=
         sarama.Producer_RequiredAcks sarama.NewConfig;
       sarama.Producer_Retry_Max :=
         sarama.Producer_Retry_Max sarama.NewConfig;
       sarama.Producer_Return_Successes :=
         sarama.Producer_Return_Successes sarama.NewConfig;
       sarama.Version := sarama.V1_0_0_0 |} (ext (st_world s))
  = ((client, None), x) →
  step k handler Main s
  = Some (Running
      {| st_world :=
           {| ext := x; chans := chans (st_world s) ++ [Open];
              trace := trace (st_world s)
                ++ [EvNewConsumerGroup (brokers k) (consumerGroup k)
                      {| sarama.Producer_RequiredAcks :=
                           sarama.Producer_RequiredAcks sarama.NewConfig;
                         sarama.Producer_Retry_Max :=
                           sarama.Producer_Retry_Max sarama.NewConfig;
                         sarama.Producer_Return_Successes :=
                           sarama.Producer_Return_Successes sarama.NewConfig;
                         sarama.Version := sarama.V1_0_0_0 |}] |};
         st_cs := {| ready := Some (length (chans (st_world s)));
                     callback := handler |};
         st_err := None; st_client := client; st_ctx := false;
         st_wg := st_wg s + 1; st_notify := st_notify s;
         st_sigterm := st_sigterm s;
         st_main := M_EvalReady; st_loop := L_Consume |}).
Proof.
  intros Hmain E. simpl. unfold step_main. rewrite Hmain.
  unfold Subscribe_prologue, exec, mbind, M_bind, make_chan,
    sarama_NewConsumerGroup, mret, M_ret.
  simpl. by rewrite E.
Qed.

Lemma released_gate (l : list ChanState) :
  <[length l:=Closed]> (l ++ [Open]) !! length l = Some Closed.
Proof.
  apply list_lookup_insert_eq. rewrite length_app. simpl. lia.
Qed.

(** Flattening a state that is written with setters, and taking a step from
    a flat state. *)
Local Ltac flat_state :=
  cbv beta iota zeta delta
    [set_world set_cs set_err set_client set_ctx set_wg set_notify
     set_sigterm set_main set_loop st_world st_cs st_err st_client st_ctx
     st_wg st_notify st_sigterm st_main st_loop Subscribe_entry emit
     set_ext set_chans ext chans trace ready callback].

Local Ltac flat_step :=
  cbv beta iota zeta delta
    [step step_main step_loop exec run_hook is_closed
     set_world set_cs set_err set_client set_ctx set_wg set_notify
     set_sigterm set_main set_loop st_world st_cs st_err st_client st_ctx
     st_wg st_notify st_sigterm st_main st_loop emit
     set_ext set_chans ext chans trace ready callback].

Local Ltac one_step :=
  erewrite run_step by (flat_step; reflexivity); flat_state.

(** An orderly run returns what [client.Close()] returns. *)
Lemma orderly_run (req : pubsub.SubscribeRequest)
    (session : sarama.ConsumerGroupSession) (w : World)
    (client : sarama.ConsumerGroup) (x : Ext) :
  sarama.NewConsumerGroup (brokers k) (consumerGroup k)
    {| sarama.Producer_RequiredAcks :=
         sarama.Producer_RequiredAcks sarama.NewConfig;
       sarama.Producer_Retry_Max :=
         sarama.Producer_Retry_Max sarama.NewConfig;
       sarama.Producer_Return_Successes :=
         sarama.Producer_Return_Successes sarama.NewConfig;
       sarama.Version := sarama.V1_0_0_0 |} (ext w)
  = ((Some client, None), x) →
  ∃ s,
    Subscribe k req handler (orderly session) w = Some (Running s)
    ∧ st_main s = M_Return (sarama.Close client x).1
    ∧ st_loop s = L_Done.
Proof.
  intros E. unfold Subscribe, orderly.
  (* the prologue *)
  erewrite run_step by (by apply prologue_ok). flat_state.
  change (0 + 1) with 1.
  (* the loop calls [client.Consume] *)
  one_step.
  (* sarama sets the session up *)
  erewrite run_step.
  2:{ flat_step. erewrite Setup_open; [reflexivity|reflexivity|].
      flat_state. by apply list_lookup_middle. }
  flat_state.
  (* the caller reads [cs.ready] and gets past it *)
  one_step.
  erewrite run_step by (flat_step; by rewrite released_gate). flat_state.
  (* it asks for the signals, and one comes *)
  one_step. one_step. one_step.
  (* it cancels the context; [client.Consume] returns and the loop ends *)
  one_step. one_step.
  erewrite run_step by (flat_step; change (1 - 1) with 0; reflexivity).
  flat_state.
  (* the caller gets past [wg.Wait()] and closes the client *)
  erewrite run_step by (flat_step; reflexivity). flat_state.
  cbn [run]. flat_step. unfold client_Close. flat_state.
  destruct (sarama.Close client x) as [[e|] x'] eqn:Hclose; flat_state;
    eexists; (split; [reflexivity|]); done.
Qed.



(** C5.  [ConsumeClaim] returns nil whatever the handler returns.  Whenever
    [Subscribe] has returned, under whatever schedule, with whatever the
    handler and [client.Consume] returned on the way, then either its prologue
    could not construct the client and it returned that error before the loop
    was started, or the loop had ended, the caller stood at line 143 and what
    [Subscribe] returned is what [client.Close()] returned there.  And it does
    return: in an orderly run it returns the result of [client.Close()]. *)
Theorem Subscribe_returns_what_Close_returns (req : pubsub.SubscribeRequest) :
  (∀ (c : consumer) (session : sarama.ConsumerGroupSession)
     (claim : sarama.ConsumerGroupClaim) (w : World),
     ∃ w', ConsumeClaim c session claim w = Ok None w')
  ∧ (∀ (w : World) sched p (r : option error),
       Subscribe k req handler sched w = Some p → returned p = Some r →
       (∃ sched1 sched2 s0 (e : error),
          sched = sched1 ++ Main :: sched2
          ∧ Subscribe k req handler sched1 w = Some (Running s0)
          ∧ st_main s0 = M_Start
          ∧ (sarama.NewConsumerGroup (brokers k) (consumerGroup k)
               {| sarama.Producer_RequiredAcks :=
                    sarama.Producer_RequiredAcks sarama.NewConfig;
                  sarama.Producer_Retry_Max :=
                    sarama.Producer_Retry_Max sarama.NewConfig;
                  sarama.Producer_Return_Successes :=
                    sarama.Producer_Return_Successes sarama.NewConfig;
                  sarama.Version := sarama.V1_0_0_0 |}
               (ext (st_world s0))).1.2 = Some e
          ∧ r = Some e)
       ∨ (∃ sched1 sched2 s1 (client : sarama.ConsumerGroup),
            sched = sched1 ++ Main :: sched2
            ∧ Subscribe k req handler sched1 w = Some (Running s1)
            ∧ st_main s1 = M_Close ∧ st_loop s1 = L_Done
            ∧ st_client s1 = Some client
            ∧ r = (sarama.Close client (ext (st_world s1))).1))
  ∧ (∀ (session : sarama.ConsumerGroupSession) (w : World)
       (client : sarama.ConsumerGroup) (x : Ext),
       sarama.NewConsumerGroup (brokers k) (consumerGroup k)
         {| sarama.Producer_RequiredAcks :=
              sarama.Producer_RequiredAcks sarama.NewConfig;
            sarama.Producer_Retry_Max :=
              sarama.Producer_Retry_Max sarama.NewConfig;
            sarama.Producer_Return_Successes :=
              sarama.Producer_Return_Successes sarama.NewConfig;
            sarama.Version := sarama.V1_0_0_0 |} (ext w)
       = ((Some client, None), x) →
       ∃ p, Subscribe k req handler (orderly session) w = Some p
            ∧ returned p = Some (sarama.Close client x).1).
Proof.
  split; [|split].
  - intros c session claim w.
    destruct (handle_all c session claim (sarama.claim_Messages claim) w)
      as (w' & _ & E & _).
    exists w'. unfold ConsumeClaim. by rewrite (bind_Ok _ _ _ _ _ E).
  - intros w sched p r. apply Subscribe_return_origin.
  - intros session w client x E.
    destruct (orderly_run req session w client x E) as (s & Hrun & Hmain & _).
    exists (Running s). split; [done|]. simpl. by rewrite Hmain.
Qed.

End subscribe.

Lemma consume_loop_obeys_cancellation_witness :
  (∃ s s',
     Subscribe Fake.adapter Fake.request None Fake.cancelled Fake.world0
     = Some (Running s)
     ∧ st_ctx s = true
     ∧ step Fake.adapter None Loop s = Some (Running s')
     ∧ st_loop s' = L_Done ∧ st_wg s' = 0)
  ∧ (∃ s client s1 s2 s3,
       Subscribe Fake.adapter Fake.request None Fake.broker_down Fake.world0
       = Some (Running s)
       ∧ st_ctx s = false
       ∧ st_client s = Some client
       ∧ step Fake.adapter None Loop s = Some (Running s1)
       ∧ step Fake.adapter None Loop s1 = Some (Running s2)
       ∧ step Fake.adapter None Loop s2 = Some (Running s3)
       ∧ st_loop s3 = L_InConsume
       ∧ trace (st_world s3)
         = trace (st_world s2) ++ [EvConsume (topics Fake.adapter)]).
Proof.
  split.
  - eexists.
    assert (Subscribe Fake.adapter Fake.request None Fake.cancelled
              Fake.world0 = Some (Running _)) as Hs
      by (vm_compute; reflexivity).
    destruct (consume_loop_obeys_cancellation Fake.adapter None Fake.request
                Fake.world0 Fake.cancelled _ Hs) as (_ & Hcancelled & _).
    destruct (Hcancelled eq_refl eq_refl) as (s' & Hstep & Hloop & Hwg & _).
    exists s'. split; [exact Hs|]. split; [reflexivity|].
    split; [exact Hstep|]. split; [exact Hloop | exact Hwg].
  - eexists.
    assert (Subscribe Fake.adapter Fake.request None Fake.broker_down
              Fake.world0 = Some (Running _)) as Hs
      by (vm_compute; reflexivity).
    destruct (consume_loop_obeys_cancellation Fake.adapter None Fake.request
                Fake.world0 Fake.broker_down _ Hs) as (_ & _ & Hgoes_on).
    destruct (Hgoes_on eq_refl eq_refl)
      as (s1 & client & Hstep1 & _ & _ & Hclient & Hnext).
    destruct (Hnext [] s1 (Forall_nil_2 _) eq_refl)
      as (s2 & i & Hstep2 & _ & _ & _ & _ & _ & _ & _ & Hagain).
    destruct (Hagain [] s2 (Forall_nil_2 _) eq_refl)
      as (s3 & Hstep3 & Hloop3 & _ & Htrace & _).
    exists client, s1, s2, s3.
    split; [exact Hs|]. split; [reflexivity|]. split; [exact Hclient|].
    split; [exact Hstep1|]. split; [exact Hstep2|]. split; [exact Hstep3|].
    split; [exact Hloop3 | exact Htrace].
Defined.

Lemma Subscribe_returns_what_Close_returns_witness :
  ∃ p,
    Subscribe Fake.adapter Fake.request (Some Fake.picky)
      (orderly Fake.session) Fake.world0 = Some p
    ∧ returned p = Some None.
Proof.
  destruct (Subscribe_returns_what_Close_returns Fake.adapter
              (Some Fake.picky) Fake.request) as (_ & _ & Hrun).
  exact (Hrun Fake.session Fake.world0 (9%nat : sarama.ConsumerGroup)
           (0%nat : Ext) eq_refl).
Defined.

(** With a broker that is down and no cancellation, the loop goes round: the
    error is logged, a second channel becomes the gate, and [client.Consume]
    is called again. *)
Example loop_goes_round :
  ∃ s,
    Subscribe Fake.adapter Fake.request None
      (Fake.broker_down ++ [Loop; Loop; Loop]) Fake.world0
    = Some (Running s)
    ∧ st_loop s = L_InConsume
    ∧ ready (st_cs s) = Some 1%nat
    ∧ chans (st_world s) = [Open; Open]
    ∧ Consume_calls (trace (st_world s)) = 2%nat.
Proof. eexists. split; [vm_compute; reflexivity|]. by vm_compute. Qed.

(** In the eventful run the handler turns a record down, [client.Consume]
    returns an error and the close fails: [Subscribe] returns the error of the
    close, and only that. *)
Example eventful_run :
  ∃ p,
    Subscribe Fake.adapter Fake.request (Some Fake.picky) Fake.eventful
      Fake.world0 = Some p
    ∧ returned p = Some (Some "kafka: close failed").
Proof. eexists. split; [vm_compute; reflexivity|]. by vm_compute. Qed.

(** * Further properties of the adapter *)

(** ** The resolver and initialisation, end to end *)

Section configuration.
Context `{sarama.API}.
Implicit Types (k : Kafka) (w : World) (m : gmap string string).

(** The configuration [Init] constructs the producer with. *)
Local Abbreviation producer_config :=
  {| sarama.Producer_RequiredAcks := sarama.WaitForAll;
     sarama.Producer_Retry_Max := 5;
     sarama.Producer_Return_Successes := true;
     sarama.Version := sarama.Version sarama.NewConfig |}.

(** X1.  The resolver reads the keys [brokers], [topics] and
    [consumerGroup] and nothing else: two property maps that agree on these
    three resolve alike, whatever else they hold and whatever adapter the
    resolver is called on.  In particular [publishTopic] is not read: the
    resolved [PublishTopic] is always empty. *)
Theorem getKafkaMetadata_reads_three_keys k k'
    (metadata metadata' : pubsub.Metadata) :
  (∀ key, key ∈ ["brokers"; "topics"; "consumerGroup"] →
          pubsub.Properties metadata !! key
          = pubsub.Properties metadata' !! key) →
  getKafkaMetadata k metadata = getKafkaMetadata k' metadata'
  ∧ PublishTopic (getKafkaMetadata k metadata).1 = "".
Proof.
  intros Hkeys. split; [|apply getKafkaMetadata_PublishTopic].
  unfold getKafkaMetadata.
  rewrite <- (Hkeys "brokers"), <- (Hkeys "topics"),
    <- (Hkeys "consumerGroup"); [done|..];
    rewrite !elem_of_cons; auto.
Qed.

(** X2.  From the property map to the adapter: when [brokers] and [topics]
    hold lists joined with commas and sarama constructs the producer for
    these brokers, [Init] returns nil and the adapter holds exactly these
    lists, the consumer group as it stands in the map, and the producer sarama
    returned, whatever the adapter held before. *)
Theorem Init_stores_the_resolved_lists k m (bs ts : list string) w
    (p : option sarama.SyncProducer) (x : Ext) :
  Forall (λ s, GoStrings.lacks "," s = true) bs →
  Forall (λ s, GoStrings.lacks "," s = true) ts →
  bs ≠ [""] → ts ≠ [""] →
  m !! "brokers" = Some (GoStrings.Join bs ",") →
  m !! "topics" = Some (GoStrings.Join ts ",") →
  sarama.NewSyncProducer bs producer_config (ext w) = ((p, None), x) →
  Init k {| pubsub.Properties := m |} w
  = Ok ({| producer := p; topics := ts;
           consumerGroup := default "" (m !! "consumerGroup");
           brokers := bs |}, None)
       {| ext := x; chans := chans w;
          trace := trace w ++ [EvNewSyncProducer bs producer_config] |}.
Proof.
  intros Hbs Hts Hb Ht Hmb Hmt Hnew.
  rewrite Init_eq. cbv zeta.
  rewrite getKafkaMetadata_Brokers, getKafkaMetadata_Topics,
    getKafkaMetadata_ConsumerGroup.
  simpl. rewrite Hmb, Hmt, !resolve_joined by done.
  by rewrite Hnew.
Qed.

(** X3.  [Init] does not validate: when [brokers] is missing or empty it
    still asks sarama for a producer, for the empty list of brokers, and
    returns whatever error sarama returns for that. *)
Theorem Init_without_brokers_asks_sarama k (metadata : pubsub.Metadata) w :
  pubsub.Properties metadata !! "brokers" = None
  ∨ pubsub.Properties metadata !! "brokers" = Some "" →
  ∃ (k' : Kafka) (w' : World),
    Init k metadata w
    = Ok (k', (sarama.NewSyncProducer [] producer_config (ext w)).1.2) w'
    ∧ trace w' = trace w ++ [EvNewSyncProducer [] producer_config]
    ∧ ext w' = (sarama.NewSyncProducer [] producer_config (ext w)).2.
Proof.
  intros Hb. rewrite Init_eq. cbv zeta.
  rewrite getKafkaMetadata_Brokers.
  assert (match pubsub.Properties metadata !! "brokers" with
          | Some val => if String.eqb val "" then [] else GoStrings.Split val ","
          | None => []
          end = []) as -> by (by destruct Hb as [-> | ->]).
  destruct (sarama.NewSyncProducer _ _ _) as [[p [e|]] x]; simpl;
    by eexists _, _.
Qed.

(** X4.  What [Init] leaves behind on success owes nothing to the adapter it
    was called on: two adapters initialised with the same metadata in the same
    world end up equal, field for field, so a second [Init] replaces the
    configuration and merges nothing.  On failure each keeps what it had. *)
Theorem Init_overwrites k1 k2 (metadata : pubsub.Metadata) w :
  ∃ (k1' k2' : Kafka) (r : option error) (w' : World),
    Init k1 metadata w = Ok (k1', r) w'
    ∧ Init k2 metadata w = Ok (k2', r) w'
    ∧ match r with
      | None => k1' = k2'
      | Some _ => k1' = k1 ∧ k2' = k2
      end.
Proof.
  rewrite !Init_eq. cbv zeta.
  change (getKafkaMetadata k2 metadata) with (getKafkaMetadata k1 metadata).
  generalize (getKafkaMetadata k1 metadata).1 as meta. intros meta.
  destruct (sarama.NewSyncProducer _ _ _) as [[p [e|]] x] eqn:E; simpl;
    eexists _, _, _, _; (split; [reflexivity|]); (split; [reflexivity|]);
    done.
Qed.

End configuration.

(** ** Initialisation and publishing together *)

Section publishing.
Context `{sarama.API}.
Implicit Types (k : Kafka) (w : World) (req : pubsub.PublishRequest).

Local Abbreviation producer_config :=
  {| sarama.Producer_RequiredAcks := sarama.WaitForAll;
     sarama.Producer_Retry_Max := 5;
     sarama.Producer_Return_Successes := true;
     sarama.Version := sarama.Version sarama.NewConfig |}.

(** The message [Publish] builds from a request. *)
Local Abbreviation outbound req :=
  {| sarama.pm_Topic := pubsub.req_Topic req;
     sarama.pm_Value := pubsub.req_Data req |}.

Lemma Publish_with_producer k (p : sarama.SyncProducer) req w :
  producer k = Some p →
  Publish k req w
  = Ok (sarama.SendMessage p (outbound req) (ext w)).1.2
       {| ext := (sarama.SendMessage p (outbound req) (ext w)).2;
          chans := chans w;
          trace := trace w
            ++ [EvSendMessage p (outbound req)
                  (sarama.SendMessage p (outbound req) (ext w)).1.2] |}.
Proof.
  intros Hp. unfold Publish. rewrite Hp.
  unfold mbind, M_bind, producer_SendMessage, sarama.ByteEncoder. simpl.
  destruct (sarama.SendMessage _ _ _) as [[[partition offset] [e|]] x];
    reflexivity.
Qed.

Lemma Publish_without_producer k req w :
  producer k = None → Publish k req w = Panic nil_deref w.
Proof. intros Hp. unfold Publish. by rewrite Hp. Qed.

(** X5.  [Init] and then [Publish]: when sarama constructs a producer, the
    publish that follows goes through that very producer, in the world the
    construction left; the two calls leave one construction and one send on
    the trace, and the result is the error of the send. *)
Theorem Publish_after_Init k (metadata : pubsub.Metadata) req w
    (p : sarama.SyncProducer) (x : Ext) :
  let addrs := Brokers (getKafkaMetadata k metadata).1 in
  sarama.NewSyncProducer addrs producer_config (ext w)
  = ((Some p, None), x) →
  (Init k metadata ≫= λ r, Publish r.1 req) w
  = Ok (sarama.SendMessage p (outbound req) x).1.2
       {| ext := (sarama.SendMessage p (outbound req) x).2;
          chans := chans w;
          trace := trace w
            ++ [EvNewSyncProducer addrs producer_config;
                EvSendMessage p (outbound req)
                  (sarama.SendMessage p (outbound req) x).1.2] |}.
Proof.
  intros addrs Hnew. subst addrs.
  erewrite bind_Ok by apply Init_eq. cbv zeta.
  rewrite Hnew. simpl.
  erewrite Publish_with_producer by reflexivity. simpl.
  by rewrite <- app_assoc.
Qed.

(** X6.  An adapter fresh from [NewKafka] has no producer, and a failed
    [Init] gives it none: [Publish] on it panics on the nil producer, and
    nothing is sent. *)
Theorem Publish_after_failed_Init (metadata : pubsub.Metadata) req w
    (k' : Kafka) (e : error) (w' : World) :
  Init NewKafka metadata w = Ok (k', Some e) w' →
  Publish NewKafka req w = Panic nil_deref w
  ∧ Publish k' req w' = Panic nil_deref w'
  ∧ sends (trace w') = sends (trace w).
Proof.
  rewrite Init_eq. cbv zeta.
  generalize (getKafkaMetadata NewKafka metadata).1 as meta. intros meta.
  destruct (sarama.NewSyncProducer _ _ _) as [[p [e'|]] x]; simpl;
    intros [= <- <- <-].
  split; [by apply Publish_without_producer|].
  split; [by apply Publish_without_producer|].
  simpl. clear. induction (trace w) as [|ev t IH]; [done|].
  destruct ev; simpl; by rewrite ?IH.
Qed.

(** X7.  Two publishes in a row are two sends, in the order of the calls;
    the second is made in the world the first one left, and it is made
    whether the first succeeded or not: the adapter keeps no error and
    buffers nothing. *)
Theorem Publish_twice k (p : sarama.SyncProducer) req1 req2 w :
  producer k = Some p →
  let out1 := sarama.SendMessage p (outbound req1) (ext w) in
  let out2 := sarama.SendMessage p (outbound req2) out1.2 in
  (Publish k req1 ≫= λ e1, Publish k req2 ≫= λ e2, mret (e1, e2)) w
  = Ok (out1.1.2, out2.1.2)
       {| ext := out2.2; chans := chans w;
          trace := trace w
            ++ [EvSendMessage p (outbound req1) out1.1.2;
                EvSendMessage p (outbound req2) out2.1.2] |}.
Proof.
  intros Hp out1 out2. subst out2 out1.
  erewrite bind_Ok by by apply Publish_with_producer.
  erewrite bind_Ok by by apply Publish_with_producer.
  unfold mret, M_ret. simpl. by rewrite <- app_assoc.
Qed.

End publishing.

(** ** More on the session handler *)

Section handling.
Context `{sarama.API}.
Implicit Types (c : consumer) (w : World) (m : sarama.ConsumerMessage).

Local Abbreviation delivered claim m :=
  {| pubsub.msg_Data := sarama.cm_Value m;
     pubsub.msg_Topic := sarama.claim_Topic claim |}.

(** X8.  [Setup] in full: it never returns an error; it returns at all only
    on a gate that is an unreleased channel, which it releases; on a nil gate
    and on a released one it panics and leaves the world as it was. *)
Theorem Setup_returns_iff_gate_unreleased c
    (session : sarama.ConsumerGroupSession) w :
  match Setup c session w with
  | Ok r w' =>
      r = None
      ∧ ∃ i : nat, ready c = Some i ∧ chans w !! i = Some Open
                   ∧ w' = set_chans (<[i:=Closed]> (chans w)) w
  | Panic _ w' =>
      w' = w
      ∧ (ready c = None
         ∨ ∃ i : nat, ready c = Some i ∧ chans w !! i ≠ Some Open)
  end.
Proof.
  unfold Setup, mbind, M_bind, close.
  destruct (ready c) as [i|]; [|by auto].
  destruct (chans w !! i) as [[]|] eqn:Hi; simpl.
  - split; [done|]. by exists i.
  - split; [done|]. right. exists i. by rewrite Hi.
  - split; [done|]. right. exists i. by rewrite Hi.
Qed.

Lemma callbacks_app (t1 t2 : list Event) :
  callbacks (t1 ++ t2) = callbacks t1 ++ callbacks t2.
Proof.
  induction t1 as [|ev t1 IH]; [done|].
  destruct ev; simpl; by rewrite ?IH.
Qed.

Lemma marks_app (t1 t2 : list Event) :
  marks (t1 ++ t2) = marks t1 ++ marks t2.
Proof.
  induction t1 as [|ev t1 IH]; [done|].
  destruct ev; simpl; by rewrite ?IH.
Qed.

Lemma range_cons (body : sarama.ConsumerMessage → M unit) m
    (rest : list sarama.ConsumerMessage) w :
  range_Messages body (m :: rest) w
  = (body m ≫= λ _, range_Messages body rest) (emit (EvRecv m) w).
Proof. reflexivity. Qed.

Lemma body_accepted c (cb : Handler) (session : sarama.ConsumerGroupSession)
    (claim : sarama.ConsumerGroupClaim) m w (x : Ext) :
  callback c = Some cb → cb (delivered claim m) (ext w) = (None, x) →
  ConsumeClaim_body c session claim m w
  = Ok tt {| ext := sarama.MarkMessage session m "" x; chans := chans w;
             trace := trace w ++ [EvCallback (delivered claim m) None;
                                  EvMarkMessage m ""] |}.
Proof.
  intros Hcb Hx. unfold ConsumeClaim_body. rewrite Hcb.
  unfold mbind, M_bind, call_handler, session_MarkMessage. rewrite Hx.
  unfold emit, set_ext. simpl. by rewrite <- app_assoc.
Qed.

Lemma body_refused c (cb : Handler) (session : sarama.ConsumerGroupSession)
    (claim : sarama.ConsumerGroupClaim) m w (e : error) (x : Ext) :
  callback c = Some cb → cb (delivered claim m) (ext w) = (Some e, x) →
  ConsumeClaim_body c session claim m w
  = Ok tt {| ext := x; chans := chans w;
             trace := trace w ++ [EvCallback (delivered claim m) (Some e)] |}.
Proof.
  intros Hcb Hx. unfold ConsumeClaim_body. rewrite Hcb.
  unfold mbind, M_bind, call_handler. by rewrite Hx.
Qed.

(** What a claim leaves on the trace, read record by record: the calls of
    the handler are those for the records, in order, and the marks are those
    of the records whose call returned nil. *)
Lemma range_calls_and_marks c (cb : Handler)
    (session : sarama.ConsumerGroupSession)
    (claim : sarama.ConsumerGroupClaim)
    (messages : list sarama.ConsumerMessage) w :
  callback c = Some cb →
  ∃ w' evs,
    range_Messages (ConsumeClaim_body c session claim) messages w = Ok tt w'
    ∧ trace w' = trace w ++ evs
    ∧ (callbacks evs).*1 = (λ m, delivered claim m) <$> messages
    ∧ marks evs
      = omap (λ p : sarama.ConsumerMessage * (pubsub.NewMessage * option error),
                match p.2.2 with
                | None => Some (p.1, "")
                | Some _ => None
                end)
             (zip messages (callbacks evs)).
Proof.
  intros Hcb. revert w. induction messages as [|m rest IH]; intros w.
  - exists w, []. simpl. by rewrite app_nil_r.
  - rewrite range_cons.
    destruct (cb (delivered claim m) (ext (emit (EvRecv m) w)))
      as [[e|] x] eqn:Hx.
    + erewrite bind_Ok by by eapply body_refused.
      match goal with |- context [range_Messages _ rest ?w1] =>
        destruct (IH w1) as (w' & evs & E & T & C & K) end.
      exists w', (EvRecv m :: EvCallback (delivered claim m) (Some e) :: evs).
      split; [exact E|].
      split; [by rewrite T; simpl; rewrite <- !app_assoc|].
      simpl. split; [f_equal; exact C | try f_equal; exact K].
    + erewrite bind_Ok by by eapply body_accepted.
      match goal with |- context [range_Messages _ rest ?w1] =>
        destruct (IH w1) as (w' & evs & E & T & C & K) end.
      exists w', (EvRecv m :: EvCallback (delivered claim m) None
                    :: EvMarkMessage m "" :: evs).
      split; [exact E|].
      split; [by rewrite T; simpl; rewrite <- !app_assoc|].
      simpl. split; [f_equal; exact C | try f_equal; exact K].
Qed.

(** X9.  With a handler in place, [ConsumeClaim] calls it exactly once for
    every record of the claim, in the order of the records, each time with the
    claim's topic and the record's payload, and whatever the earlier calls
    returned: an error neither ends the loop nor is the record tried again. *)
Theorem ConsumeClaim_calls_handler_once_per_record c (cb : Handler)
    (session : sarama.ConsumerGroupSession)
    (claim : sarama.ConsumerGroupClaim) w :
  callback c = Some cb →
  ∃ w' evs,
    ConsumeClaim c session claim w = Ok None w'
    ∧ trace w' = trace w ++ evs
    ∧ (callbacks evs).*1
      = (λ m, delivered claim m) <$> sarama.claim_Messages claim.
Proof.
  intros Hcb.
  destruct (range_calls_and_marks c cb session claim
              (sarama.claim_Messages claim) w Hcb)
    as (w' & evs & E & T & C & _).
  exists w', evs. split; [|done].
  unfold ConsumeClaim. by rewrite (bind_Ok _ _ _ _ _ E).
Qed.

(** X10.  The records [ConsumeClaim] marks are, in order, exactly the
    records whose call of the handler returned nil, each marked once and with
    empty metadata.  So a record that failed is passed over and the records
    after it are still marked. *)
Theorem ConsumeClaim_marks_the_successes_in_order c (cb : Handler)
    (session : sarama.ConsumerGroupSession)
    (claim : sarama.ConsumerGroupClaim) w :
  callback c = Some cb →
  ∃ w' evs,
    ConsumeClaim c session claim w = Ok None w'
    ∧ trace w' = trace w ++ evs
    ∧ length (callbacks evs) = length (sarama.claim_Messages claim)
    ∧ marks evs
      = omap (λ p : sarama.ConsumerMessage * (pubsub.NewMessage * option error),
                match p.2.2 with
                | None => Some (p.1, "")
                | Some _ => None
                end)
             (zip (sarama.claim_Messages claim) (callbacks evs)).
Proof.
  intros Hcb.
  destruct (range_calls_and_marks c cb session claim
              (sarama.claim_Messages claim) w Hcb)
    as (w' & evs & E & T & C & K).
  exists w', evs. split; [|split; [done|split; [|done]]].
  - unfold ConsumeClaim. by rewrite (bind_Ok _ _ _ _ _ E).
  - rewrite <- (length_fmap fst), C. by rewrite length_fmap.
Qed.

Lemma range_app (body : sarama.ConsumerMessage → M unit)
    (ms1 ms2 : list sarama.ConsumerMessage) w :
  range_Messages body (ms1 ++ ms2) w
  = (range_Messages body ms1 ≫= λ _, range_Messages body ms2) w.
Proof.
  revert w. induction ms1 as [|m ms1 IH]; intros w; [done|].
  simpl. unfold mbind, M_bind, recv_message.
  destruct (body m _) as [[] w1|]; [|done].
  apply IH.
Qed.

(** X11.  A claim whose records come in two batches is handled as the two
    batches one after the other: [ConsumeClaim] on the whole does to the world
    what [ConsumeClaim] on the first batch followed by [ConsumeClaim] on the
    second does.  Nothing is carried from record to record but the world. *)
Theorem ConsumeClaim_in_two_batches c
    (session : sarama.ConsumerGroupSession) (topic : string)
    (ms1 ms2 : list sarama.ConsumerMessage) w :
  ConsumeClaim c session
    {| sarama.claim_Topic := topic; sarama.claim_Messages := ms1 ++ ms2 |} w
  = (ConsumeClaim c session
       {| sarama.claim_Topic := topic; sarama.claim_Messages := ms1 |} ≫= λ _,
     ConsumeClaim c session
       {| sarama.claim_Topic := topic; sarama.claim_Messages := ms2 |}) w.
Proof.
  unfold ConsumeClaim. simpl.
  change (ConsumeClaim_body c session
            {| sarama.claim_Topic := topic;
               sarama.claim_Messages := ms1 ++ ms2 |})
    with (ConsumeClaim_body c session
            {| sarama.claim_Topic := topic; sarama.claim_Messages := ms1 |}).
  change (ConsumeClaim_body c session
            {| sarama.claim_Topic := topic; sarama.claim_Messages := ms2 |})
    with (ConsumeClaim_body c session
            {| sarama.claim_Topic := topic; sarama.claim_Messages := ms1 |}).
  unfold mbind at 1. unfold M_bind at 1. rewrite range_app.
  unfold mbind, M_bind, mret, M_ret.
  by destruct (range_Messages _ ms1 w) as [[] w1|].
Qed.

(** A handler that accepts every message, whatever the outside. *)
Lemma range_all_accepted c (cb : Handler)
    (session : sarama.ConsumerGroupSession)
    (claim : sarama.ConsumerGroupClaim)
    (messages : list sarama.ConsumerMessage) w :
  callback c = Some cb →
  (∀ m e, m ∈ messages → (cb (delivered claim m) e).1 = None) →
  ∃ w' evs,
    range_Messages (ConsumeClaim_body c session claim) messages w = Ok tt w'
    ∧ trace w' = trace w ++ evs
    ∧ marks evs = (λ m, (m, "")) <$> messages.
Proof.
  intros Hcb. revert w. induction messages as [|m rest IH]; intros w Hall.
  - exists w, []. simpl. by rewrite app_nil_r.
  - rewrite range_cons.
    pose proof (Hall m (ext (emit (EvRecv m) w)) ltac:(by left)) as Hm.
    destruct (cb (delivered claim m) (ext (emit (EvRecv m) w)))
      as [[e|] x] eqn:Hx; [done|].
    erewrite bind_Ok by by eapply body_accepted.
    match goal with |- context [range_Messages _ rest ?w1] =>
      destruct (IH w1) as (w' & evs & E & T & K) end.
    { intros m' e' Hin. apply Hall. by right. }
    exists w', (EvRecv m :: EvCallback (delivered claim m) None
                  :: EvMarkMessage m "" :: evs).
    split; [exact E|].
    split; [by rewrite T; simpl; rewrite <- !app_assoc|].
    simpl. by rewrite K.
Qed.

(** A handler that refuses every message, whatever the outside. *)
Lemma range_all_refused c (cb : Handler)
    (session : sarama.ConsumerGroupSession)
    (claim : sarama.ConsumerGroupClaim)
    (messages : list sarama.ConsumerMessage) w :
  callback c = Some cb →
  (∀ m e, m ∈ messages → (cb (delivered claim m) e).1 ≠ None) →
  ∃ w' evs,
    range_Messages (ConsumeClaim_body c session claim) messages w = Ok tt w'
    ∧ trace w' = trace w ++ evs
    ∧ marks evs = []
    ∧ length (callbacks evs) = length messages.
Proof.
  intros Hcb. revert w. induction messages as [|m rest IH]; intros w Hall.
  - exists w, []. simpl. by rewrite app_nil_r.
  - rewrite range_cons.
    pose proof (Hall m (ext (emit (EvRecv m) w)) ltac:(by left)) as Hm.
    destruct (cb (delivered claim m) (ext (emit (EvRecv m) w)))
      as [[e|] x] eqn:Hx; [|done].
    erewrite bind_Ok by by eapply body_refused.
    match goal with |- context [range_Messages _ rest ?w1] =>
      destruct (IH w1) as (w' & evs & E & T & K & L) end.
    { intros m' e' Hin. apply Hall. by right. }
    exists w', (EvRecv m :: EvCallback (delivered claim m) (Some e) :: evs).
    split; [exact E|].
    split; [by rewrite T; simpl; rewrite <- !app_assoc|].
    simpl. by rewrite K, L.
Qed.

(** X12.  When the handler accepts every record of the claim, every record
    is marked, in order; when it refuses every record, it is still called for
    each of them and nothing at all is marked. *)
Theorem ConsumeClaim_all_or_nothing c (cb : Handler)
    (session : sarama.ConsumerGroupSession)
    (claim : sarama.ConsumerGroupClaim) w :
  callback c = Some cb →
  ((∀ m e, m ∈ sarama.claim_Messages claim →
           (cb (delivered claim m) e).1 = None) →
   ∃ w' evs,
     ConsumeClaim c session claim w = Ok None w'
     ∧ trace w' = trace w ++ evs
     ∧ marks evs = (λ m, (m, "")) <$> sarama.claim_Messages claim)
  ∧ ((∀ m e, m ∈ sarama.claim_Messages claim →
             (cb (delivered claim m) e).1 ≠ None) →
     ∃ w' evs,
       ConsumeClaim c session claim w = Ok None w'
       ∧ trace w' = trace w ++ evs
       ∧ marks evs = []
       ∧ length (callbacks evs) = length (sarama.claim_Messages claim)).
Proof.
  intros Hcb. split; intros Hall.
  - destruct (range_all_accepted c cb session claim _ w Hcb Hall)
      as (w' & evs & E & T & K).
    exists w', evs. split; [|done].
    unfold ConsumeClaim. by rewrite (bind_Ok _ _ _ _ _ E).
  - destruct (range_all_refused c cb session claim _ w Hcb Hall)
      as (w' & evs & E & T & K).
    exists w', evs. split; [|done].
    unfold ConsumeClaim. by rewrite (bind_Ok _ _ _ _ _ E).
Qed.

End handling.

(** ** More on the subscribe path *)

Section shutdown.
Context `{sarama.API}.
Variable k : Kafka.
Variable handler : option Handler.
Implicit Types (s : SubState) (p : Proc) (l : Label) (sched : list Label)
  (w : World).

(** The configuration [Subscribe] constructs the consumer group with. *)
Local Abbreviation group_config :=
  {| sarama.Producer_RequiredAcks :=
       sarama.Producer_RequiredAcks sarama.NewConfig;
     sarama.Producer_Retry_Max := sarama.Producer_Retry_Max sarama.NewConfig;
     sarama.Producer_Return_Successes :=
       sarama.Producer_Return_Successes sarama.NewConfig;
     sarama.Version := sarama.V1_0_0_0 |}.

Lemma consumed_app (t1 t2 : list Event) :
  consumed (t1 ++ t2) = consumed t1 ++ consumed t2.
Proof.
  induction t1 as [|ev t1 IH]; [done|].
  destruct ev; simpl; by rewrite ?IH.
Qed.

Lemma closes_app (t1 t2 : list Event) :
  closes (t1 ++ t2) = closes t1 ++ closes t2.
Proof.
  induction t1 as [|ev t1 IH]; [done|].
  destruct ev; simpl; by rewrite ?IH.
Qed.

Lemma logged_app (t1 t2 : list Event) :
  logged (t1 ++ t2) = logged t1 ++ logged t2.
Proof.
  induction t1 as [|ev t1 IH]; [done|].
  destruct ev; simpl; by rewrite ?IH.
Qed.

(** A call of the handler's hooks is not seen by these readings, and only
    [Setup] touches the channels. *)
Lemma hook_quiet (h : HookCall) (c : consumer) w :
  let w' := res_world (run_hook h c w) in
  consumed (trace w') = consumed (trace w)
  ∧ closes (trace w') = closes (trace w)
  ∧ logged (trace w') = logged (trace w)
  ∧ Consume_calls (trace w') = Consume_calls (trace w)
  ∧ (is_Setup (Hook h) = false → chans w' = chans w).
Proof.
  destruct h as [session|session claim|session]; simpl.
  - unfold Setup, mbind, M_bind, close.
    destruct (ready c) as [i|]; [|done].
    by destruct (chans w !! i) as [[]|].
  - destruct (handle_all c session claim (sarama.claim_Messages claim) w)
      as (w' & segs & E & C & T & S).
    unfold ConsumeClaim. rewrite (bind_Ok _ _ _ _ _ E). simpl.
    rewrite T, consumed_app, closes_app, logged_app, Consume_calls_app.
    assert (consumed (concat segs) = [] ∧ closes (concat segs) = []
            ∧ logged (concat segs) = []
            ∧ Consume_calls (concat segs) = 0%nat) as (-> & -> & -> & ->).
    { clear -S. induction S as [|m seg ms segs Hseg _ IH]; [done|].
      simpl. rewrite consumed_app, closes_app, logged_app, Consume_calls_app.
      destruct IH as (-> & -> & -> & ->).
      by destruct Hseg as [[_ ->]|[[_ ->]|[_ [e ->]]]]. }
    rewrite !app_nil_r. auto with lia.
  - done.
Qed.

(** After a return from the prologue nothing moves but the outside. *)
Lemma run_after_early_return sched s p (r : option error) :
  st_main s = M_Return r → st_loop s = L_Idle → st_notify s = false →
  run k handler sched (Running s) = Some p →
  Consume_calls (trace (proc_world p)) = Consume_calls (trace (st_world s))
  ∧ closes (trace (proc_world p)) = closes (trace (st_world s)).
Proof.
  revert s. induction sched as [|l sched IH]; intros s Hm Hl Hn.
  - by intros [= <-].
  - intros (q & Hstep & Hrun)%run_cons_Running.
    destruct l; simpl in Hstep; unfold step_main, step_loop in Hstep;
      rewrite ?Hm, ?Hl, ?Hn in Hstep; simplify_eq/=.
    + apply run_stopped in Hrun as ->; done.
    + by apply IH in Hrun.
Qed.

(** X13.  The first thing [Subscribe] does is to construct the consumer
    group, for the adapter's brokers and consumer group and with sarama's
    default configuration at version 1.0.0.0.  When that fails, [Subscribe]
    returns the error at once: the loop was never started, and whatever
    happens later, [client.Consume] and [client.Close] are never called. *)
Theorem Subscribe_returns_the_construction_error
    (req : pubsub.SubscribeRequest) w
    (client : option sarama.ConsumerGroup) (e : error) (x : Ext) :
  sarama.NewConsumerGroup (brokers k) (consumerGroup k) group_config (ext w)
  = ((client, Some e), x) →
  ∃ s,
    Subscribe k req handler [Main] w = Some (Running s)
    ∧ st_main s = M_Return (Some e) ∧ st_loop s = L_Idle
    ∧ trace (st_world s)
      = trace w
        ++ [EvNewConsumerGroup (brokers k) (consumerGroup k) group_config]
    ∧ ∀ sched p,
        Subscribe k req handler (Main :: sched) w = Some p →
        Consume_calls (trace (proc_world p)) = Consume_calls (trace w)
        ∧ closes (trace (proc_world p)) = closes (trace w).
Proof.
  intros E.
  assert (step k handler Main (Subscribe_entry w)
          = Some (Running
              {| st_world :=
                   {| ext := x; chans := chans w ++ [Open];
                      trace := trace w
                        ++ [EvNewConsumerGroup (brokers k) (consumerGroup k)
                              group_config] |};
                 st_cs := {| ready := Some (length (chans w));
                             callback := handler |};
                 st_err := Some e; st_client := client; st_ctx := false;
                 st_wg := 0; st_notify := false; st_sigterm := false;
                 st_main := M_Return (Some e); st_loop := L_Idle |}))
    as Hstep.
  { simpl. unfold step_main. simpl.
    unfold Subscribe_prologue, exec, mbind, M_bind, make_chan,
      sarama_NewConsumerGroup, mret, M_ret.
    simpl. by rewrite E. }
  eexists. split; [unfold Subscribe; by erewrite run_step by exact Hstep|].
  do 3 (split; [done|]).
  intros sched p. unfold Subscribe. erewrite run_step by exact Hstep.
  intros Hrun.
  apply (run_after_early_return _ _ _ (Some e)) in Hrun; [|done..].
  simpl in Hrun. rewrite Consume_calls_app, closes_app in Hrun.
  simpl in Hrun. rewrite app_nil_r in Hrun.
  destruct Hrun as [-> ->]. auto with lia.
Qed.

(** What one step adds to the calls of [client.Consume] and to the calls of
    [client.Close]. *)
Lemma step_readings l s p :
  step k handler l s = Some p →
  (∃ n : nat,
     consumed (trace (proc_world p))
     = consumed (trace (st_world s)) ++ replicate n (topics k)
     ∧ Consume_calls (trace (proc_world p))
       = (Consume_calls (trace (st_world s)) + n)%nat)
  ∧ closes (trace (proc_world p))
    = closes (trace (st_world s))
      ++ match l, st_main s, st_client s with
         | Main, M_Close, Some c => [(sarama.Close c (ext (st_world s))).1]
         | _, _, _ => []
         end.
Proof.
  intros Hstep.
  assert (∀ h, l = Hook h →
            (∃ n : nat,
               consumed (trace (proc_world p))
               = consumed (trace (st_world s)) ++ replicate n (topics k)
               ∧ Consume_calls (trace (proc_world p))
                 = (Consume_calls (trace (st_world s)) + n)%nat)
            ∧ closes (trace (proc_world p)) = closes (trace (st_world s)) ++ [])
    as Hhook.
  { intros h ->. simpl in Hstep.
    destruct (st_loop s); simplify_eq/=.
    pose proof (hook_quiet h (st_cs s) (st_world s)) as (Hq1 & Hq2 & _ & Hq3 & _).
    unfold exec.
    destruct (run_hook h (st_cs s) (st_world s)) as [r w'|r w']; simpl in *;
      (split; [exists 0%nat; simpl; rewrite app_nil_r; auto with lia|]);
      by rewrite app_nil_r. }
  destruct l as [| |h| | |]; [| |by apply (Hhook h)| | |]; clear Hhook.
  all: destruct s as [w cs err client ctx wg notify sig main loop].
  all: revert Hstep.
  all: unfold step, step_main, step_loop, Subscribe_prologue, exec,
         client_Close, make_chan, sarama_NewConsumerGroup, log_Errorf,
         mbind, M_bind, mret, M_ret; simpl.
  all: intros Hstep.
  all: destruct main, loop; simpl in *;
         repeat (case_match; simplify_eq/=); simplify_eq/=;
         rewrite ?closes_app, ?consumed_app, ?Consume_calls_app; simpl;
         rewrite ?app_nil_r;
         (split; [|done]).
  all: first [ by (exists 0%nat; simpl; rewrite ?app_nil_r; auto with lia)
             | by (exists 1%nat; simpl; auto with lia) ].
Qed.

Lemma run_readings sched s p :
  run k handler sched (Running s) = Some p →
  ∃ n : nat,
    consumed (trace (proc_world p))
    = consumed (trace (st_world s)) ++ replicate n (topics k)
    ∧ Consume_calls (trace (proc_world p))
      = (Consume_calls (trace (st_world s)) + n)%nat.
Proof.
  revert s. induction sched as [|l sched IH]; intros s.
  - intros [= <-]. exists 0%nat. simpl. rewrite app_nil_r. auto with lia.
  - intros (q & Hstep & Hrun)%run_cons_Running.
    destruct (step_readings l s q Hstep) as [(n1 & Hc1 & Hn1) _].
    destruct q as [s1| |].
    + destruct (IH s1 Hrun) as (n2 & Hc2 & Hn2).
      exists (n1 + n2)%nat. simpl in *.
      rewrite Hc2, Hc1, Hn2, Hn1, replicate_add, <- app_assoc.
      auto with lia.
    + apply run_stopped in Hrun as ->; [|done]. by exists n1.
    + apply run_stopped in Hrun as ->; [|done]. by exists n1.
Qed.

(** X14.  Every call of [client.Consume] that [Subscribe] makes asks for
    the adapter's topics: under every schedule, the calls it adds to the trace
    all carry [k.topics].  The subscribe request plays no part in it. *)
Theorem Subscribe_consumes_the_adapters_topics
    (req : pubsub.SubscribeRequest) w sched p :
  Subscribe k req handler sched w = Some p →
  (∃ n : nat,
     consumed (trace (proc_world p))
     = consumed (trace w) ++ replicate n (topics k)
     ∧ Consume_calls (trace (proc_world p))
       = (Consume_calls (trace w) + n)%nat)
  ∧ ∀ req' : pubsub.SubscribeRequest,
      Subscribe k req' handler sched w = Some p.
Proof.
  intros Hrun. split; [|by intros req'].
  exact (run_readings sched (Subscribe_entry w) p Hrun).
Qed.

(** X15.  [client.Close] is called once and only once, at the very end:
    in every state [Subscribe] can reach, the closes it has added to the trace
    are none, unless it has returned after the loop had ended, in which case
    there is the one whose result it returned.  So the client is not closed
    while the loop runs, not closed twice, and not closed when its
    construction failed. *)
Theorem Subscribe_closes_once (req : pubsub.SubscribeRequest) w sched s :
  Subscribe k req handler sched w = Some (Running s) →
  closes (trace (st_world s))
  = closes (trace w)
    ++ match st_main s, st_loop s with
       | M_Return r, L_Done => [r]
       | _, _ => []
       end.
Proof.
  revert s. induction sched as [|l sched IH] using rev_ind; intros s.
  - intros [= <-]. simpl. by rewrite app_nil_r.
  - intros (s0 & Hrun & Hstep)%run_snoc.
    pose proof (Subscribe_Inv k handler req _ _ _ Hrun) as HI.
    specialize (IH s0 Hrun).
    destruct (step_readings l s0 (Running s) Hstep) as [_ Hcl].
    simpl in Hcl. rewrite Hcl, IH, <- app_assoc. f_equal.
    clear Hcl IH Hrun. revert HI Hstep.
    destruct s0 as [w0 cs err client ctx wg notify sig main loop].
    unfold Inv, step, step_main, step_loop, Subscribe_prologue, exec,
      client_Close, make_chan, sarama_NewConsumerGroup, log_Errorf,
      mbind, M_bind, mret, M_ret; simpl.
    intros HI Hstep.
    destruct l, main, loop; simpl in *;
      repeat (case_match; simplify_eq/=); simplify_eq/=;
      try done; try (exfalso; naive_solver).
Qed.

(** One round of the loop in which [client.Consume] fails. *)
Lemma failing_round s (e : error) (client : sarama.ConsumerGroup) :
  st_loop s = L_Consume → st_ctx s = false → st_client s = Some client →
  ∃ s',
    run k handler (rounds 1 (Some e)) (Running s) = Some (Running s')
    ∧ st_loop s' = L_Consume ∧ st_ctx s' = false
    ∧ st_client s' = Some client ∧ st_main s' = st_main s
    ∧ Consume_calls (trace (st_world s'))
      = S (Consume_calls (trace (st_world s)))
    ∧ logged (trace (st_world s')) = logged (trace (st_world s)) ++ [e]
    ∧ ready (st_cs s') = Some (length (chans (st_world s)))
    ∧ chans (st_world s') = chans (st_world s) ++ [Open].
Proof.
  destruct s as [w cs err cl ctx wg notify sig main loop]. simpl.
  intros -> -> ->. eexists. split; [reflexivity|]. simpl.
  rewrite !Consume_calls_app, !logged_app. simpl.
  rewrite app_nil_r. repeat split; auto with lia.
Qed.

Lemma failing_rounds (n : nat) s (e : error) (client : sarama.ConsumerGroup) :
  st_loop s = L_Consume → st_ctx s = false → st_client s = Some client →
  ∃ s',
    run k handler (rounds n (Some e)) (Running s) = Some (Running s')
    ∧ st_loop s' = L_Consume ∧ st_ctx s' = false
    ∧ st_client s' = Some client ∧ st_main s' = st_main s
    ∧ Consume_calls (trace (st_world s'))
      = (Consume_calls (trace (st_world s)) + n)%nat
    ∧ logged (trace (st_world s'))
      = logged (trace (st_world s)) ++ replicate n e.
Proof.
  revert s. induction n as [|n IH]; intros s Hl Hc Hcl.
  - exists s. simpl. rewrite app_nil_r. repeat split; auto with lia.
  - destruct (failing_round s e client Hl Hc Hcl)
      as (s1 & Hrun1 & Hl1 & Hc1 & Hcl1 & Hm1 & Hn1 & Hg1 & _).
    destruct (IH s1 Hl1 Hc1 Hcl1)
      as (s2 & Hrun2 & Hl2 & Hc2 & Hcl2 & Hm2 & Hn2 & Hg2).
    exists s2. split.
    { change (rounds (S n) (Some e))
        with (rounds 1 (Some e) ++ rounds n (Some e)).
      rewrite run_app, Hrun1. exact Hrun2. }
    do 3 (split; [done|]). split; [congruence|].
    split; [lia|].
    rewrite Hg2, Hg1, <- app_assoc. done.
Qed.

(** X16.  The loop has no bound and no pause of its own: as long as the
    context is not cancelled, every failing return of [client.Consume] is
    logged and followed by the next call.  For every [n] there is a run in
    which [client.Consume] is called [n] times and fails [n] times, with the
    [n] errors in the log, and [Subscribe] has not returned. *)
Theorem consume_loop_retries_without_bound (req : pubsub.SubscribeRequest) w
    (client : sarama.ConsumerGroup) (x : Ext) (n : nat) (e : error) :
  sarama.NewConsumerGroup (brokers k) (consumerGroup k) group_config (ext w)
  = ((Some client, None), x) →
  ∃ s,
    Subscribe k req handler (Main :: rounds n (Some e)) w = Some (Running s)
    ∧ Consume_calls (trace (st_world s))
      = (Consume_calls (trace w) + n)%nat
    ∧ logged (trace (st_world s)) = logged (trace w) ++ replicate n e
    ∧ st_loop s = L_Consume
    ∧ returned (Running s) = None.
Proof.
  intros E. unfold Subscribe.
  erewrite run_step by (by apply prologue_ok).
  match goal with |- context [run _ _ _ (Running ?s0)] =>
    destruct (failing_rounds n s0 e client eq_refl eq_refl eq_refl)
      as (s & Hrun & Hl & _ & _ & Hm & Hn & Hg)
  end.
  exists s. split; [exact Hrun|].
  simpl in *. rewrite Consume_calls_app, logged_app in *. simpl in *.
  rewrite app_nil_r in Hg.
  split; [lia|]. split; [done|]. split; [done|]. by rewrite Hm.
Qed.

(** A caller that waits on a channel which is not the gate any more waits
    for ever: [Setup] only ever closes the gate, and every later gate is a new
    channel. *)
Lemma stale_gate_step l s s1 (g : nat) :
  st_main s = M_RecvReady (Some g) →
  chans (st_world s) !! g = Some Open →
  (∃ j : nat, ready (st_cs s) = Some j ∧ j ≠ g) →
  step k handler l s = Some (Running s1) →
  st_main s1 = M_RecvReady (Some g)
  ∧ chans (st_world s1) !! g = Some Open
  ∧ ∃ j : nat, ready (st_cs s1) = Some j ∧ j ≠ g.
Proof.
  intros Hm Hg (j & Hj & Hjg) Hstep.
  assert (g < length (chans (st_world s)))%nat as Hlen
    by by eapply lookup_lt_Some.
  destruct l as [| |h| | |]; simpl in Hstep.
  - unfold step_main in Hstep. rewrite Hm in Hstep. simpl in Hstep.
    by rewrite Hg in Hstep.
  - unfold step_loop, exec, make_chan in Hstep.
    destruct (st_loop s); repeat (case_match; simplify_eq/=);
      simplify_eq/=; try by eauto.
    split; [done|]. split; [by apply lookup_app_l_Some|].
    eexists. split; [done|]. lia.
  - destruct (st_loop s); simplify_eq/=. unfold exec in Hstep.
    destruct h as [session|session claim|session].
    + simpl in Hstep. unfold Setup, mbind, M_bind, close in Hstep.
      rewrite Hj in Hstep.
      destruct (chans (st_world s) !! j) as [[]|]; simplify_eq/=.
      split; [done|]. split; [by rewrite list_lookup_insert_ne|by eauto].
    + pose proof (hook_quiet (CallConsumeClaim session claim)
                    (st_cs s) (st_world s)) as (_ & _ & _ & _ & Hch).
      destruct (run_hook _ _ _) as [r w'|r w']; simplify_eq/=.
      rewrite Hch by done. by eauto 10.
    + simplify_eq/=. by eauto 10.
  - unfold exec, log_Errorf in Hstep.
    destruct (st_loop s); repeat (case_match; simplify_eq/=);
      simplify_eq/=; by eauto 10.
  - repeat (case_match; simplify_eq/=); by eauto 10.
  - simplify_eq/=. by eauto 10.
Qed.

Lemma stale_gate_blocks sched s p (g : nat) :
  st_main s = M_RecvReady (Some g) →
  chans (st_world s) !! g = Some Open →
  (∃ j : nat, ready (st_cs s) = Some j ∧ j ≠ g) →
  run k handler sched (Running s) = Some p →
  returned p = None.
Proof.
  revert s. induction sched as [|l sched IH]; intros s Hm Hg Hj.
  - intros [= <-]. simpl. by rewrite Hm.
  - intros (q & Hstep & Hrun)%run_cons_Running.
    destruct q as [s1| |];
      [|by apply run_stopped in Hrun as ->..].
    destruct (stale_gate_step l s s1 g Hm Hg Hj Hstep) as (? & ? & ?).
    by apply (IH s1).
Qed.

(** X17.  [Subscribe] can wait for ever.  The caller reads [cs.ready] once
    and then waits for that channel.  When the first [client.Consume] returns
    before sarama has called [Setup], the loop puts a new channel into
    [cs.ready]; every later [Setup] releases a later channel, never the one
    the caller waits for.  From then on no schedule whatever lets [Subscribe]
    return: not a session that is set up, not a signal. *)
Theorem Subscribe_waits_for_ever_on_a_stale_gate
    (req : pubsub.SubscribeRequest) w (client : sarama.ConsumerGroup)
    (x : Ext) (e : option error) sched p :
  sarama.NewConsumerGroup (brokers k) (consumerGroup k) group_config (ext w)
  = ((Some client, None), x) →
  Subscribe k req handler
    ([Main; Main; Loop; ConsumeReturn e; Loop; Loop] ++ sched) w = Some p →
  returned p = None.
Proof.
  intros E. unfold Subscribe.
  change ([Main; Main; Loop; ConsumeReturn e; Loop; Loop] ++ sched)
    with (Main :: ([Main; Loop; ConsumeReturn e; Loop; Loop] ++ sched)).
  erewrite run_step by (by apply prologue_ok).
  rewrite run_app.
  match goal with |- context [run _ _ [Main; Loop; _; Loop; Loop] ?p0] =>
    destruct (run k handler [Main; Loop; ConsumeReturn e; Loop; Loop] p0)
      as [q|] eqn:Hq; [|done]
  end.
  simpl. revert Hq. destruct e as [e|]; simpl; intros [= <-].
  - apply (stale_gate_blocks _ _ _ (length (chans w))); simpl.
    + done.
    + apply lookup_app_l_Some. by apply list_lookup_middle.
    + eexists. split; [done|]. rewrite length_app. simpl. lia.
  - apply (stale_gate_blocks _ _ _ (length (chans w))); simpl.
    + done.
    + apply lookup_app_l_Some. by apply list_lookup_middle.
    + eexists. split; [done|]. rewrite length_app. simpl. lia.
Qed.

(** The gate is an unreleased channel. *)
Local Abbreviation gate_open s :=
  (∃ i : nat, ready (st_cs s) = Some i
              ∧ chans (st_world s) !! i = Some Open).

(** Whenever the loop is about to call [client.Consume], the gate is
    unreleased. *)
Lemma step_gate_open l s s' :
  Inv s → (st_loop s = L_Consume → gate_open s) →
  step k handler l s = Some (Running s') →
  st_loop s' = L_Consume → gate_open s'.
Proof.
  intros HI Hopen Hstep.
  destruct l as [| |h| | |].
  - revert HI Hopen Hstep.
    destruct s as [w cs err client ctx wg notify sig main loop].
    unfold Inv, step, step_main, Subscribe_prologue, exec, client_Close,
      make_chan, sarama_NewConsumerGroup, mbind, M_bind, mret, M_ret; simpl.
    intros HI Hopen Hstep.
    destruct main; simpl in *; repeat (case_match; simplify_eq/=);
      simplify_eq/=; try done; intros Hloop;
      first [ by auto
            | by (eexists; split; [done|]; apply list_lookup_middle) ].
  - revert HI Hopen Hstep.
    destruct s as [w cs err client ctx wg notify sig main loop].
    unfold Inv, step, step_loop, exec, make_chan; simpl.
    intros HI Hopen Hstep.
    destruct loop; simpl in *; repeat (case_match; simplify_eq/=);
      simplify_eq/=; try done; intros Hloop;
      first [ by auto
            | by (eexists; split; [done|]; apply list_lookup_middle) ].
  - simpl in Hstep. destruct (st_loop s) eqn:Hl; simplify_eq/=.
    unfold exec in Hstep.
    destruct (run_hook _ _ _); simplify_eq/=. by rewrite Hl.
  - simpl in Hstep. unfold exec, log_Errorf in Hstep.
    destruct (st_loop s) eqn:Hl; repeat (case_match; simplify_eq/=);
      simplify_eq/=; done.
  - simpl in Hstep. repeat (case_match; simplify_eq/=); done.
  - simpl in Hstep. simplify_eq/=. done.
Qed.

Lemma run_gate_open sched s s' :
  Inv s → (st_loop s = L_Consume → gate_open s) →
  run k handler sched (Running s) = Some (Running s') →
  st_loop s' = L_Consume → gate_open s'.
Proof.
  revert s. induction sched as [|l sched IH]; intros s HI Hopen.
  - by intros [= <-].
  - intros (q & Hstep & Hrun)%run_cons_Running.
    destruct q as [s1| |];
      [|by apply run_stopped in Hrun..].
    apply (IH s1); [by eapply step_Inv| |done].
    by eapply step_gate_open.
Qed.

(** X18.  Every call of [client.Consume] starts with an unreleased gate:
    in every state [Subscribe] can reach in which the loop is about to call
    [client.Consume], the first [Setup] of that call releases the gate and
    returns.  A second [Setup] within the same call brings the process down,
    for the gate is replaced only after [client.Consume] has returned. *)
Theorem every_Consume_starts_with_an_unreleased_gate
    (req : pubsub.SubscribeRequest) w sched s
    (client : sarama.ConsumerGroup) :
  Subscribe k req handler sched w = Some (Running s) →
  st_loop s = L_Consume → st_client s = Some client →
  ∀ session : sarama.ConsumerGroupSession,
  ∃ s1 s2,
    step k handler Loop s = Some (Running s1)
    ∧ st_loop s1 = L_InConsume
    ∧ step k handler (Hook (CallSetup session)) s1 = Some (Running s2)
    ∧ is_closed (ready (st_cs s2)) (st_world s2) = true
    ∧ ∀ session' : sarama.ConsumerGroupSession,
        step k handler (Hook (CallSetup session')) s2
        = Some (Crashed "close of closed channel" (st_world s2)).
Proof.
  intros Hrun Hloop Hclient session.
  destruct (run_gate_open sched (Subscribe_entry w) s) as (i & Hi & Hopen);
    [by unfold Inv; simpl; auto|done|exact Hrun|done|].
  assert (i < length (chans (st_world s)))%nat as Hlen
    by by eapply lookup_lt_Some.
  eexists _, _. split.
  { simpl. unfold step_loop. by rewrite Hloop, Hclient. }
  split; [done|]. split.
  { simpl. unfold exec. simpl.
    erewrite (Setup_open (st_cs s) session i); [reflexivity|done|done]. }
  simpl. split.
  { rewrite Hi. simpl. by rewrite list_lookup_insert_eq. }
  intros session'. unfold exec. simpl.
  erewrite (Setup_closed (st_cs s) session' i); [reflexivity|done|].
  simpl. by rewrite list_lookup_insert_eq.
Qed.

(** *** When [Subscribe] can shut down

    Two invariants of the runs of [Subscribe], kept along with what the
    schedule has held so far: one about the signal, one about the gate. *)

Local Abbreviation past_signal s :=
  match st_main s with
  | M_Cancel | M_Wait | M_Close => True
  | M_Return _ => st_loop s ≠ L_Idle
  | _ => False
  end.

Local Abbreviation past_cancel s :=
  match st_main s with
  | M_Wait | M_Close => True
  | M_Return _ => st_loop s ≠ L_Idle
  | _ => False
  end.

Local Abbreviation Signalled hg s :=
  ((st_sigterm s = true → hg = true)
   ∧ (past_signal s → hg = true)
   ∧ (st_ctx s = true → past_cancel s)).

Lemma step_Signalled l s s' (hg : bool) :
  Inv s → Signalled hg s →
  step k handler l s = Some (Running s') →
  Signalled (hg || is_Signal l) s'.
Proof.
  destruct s as [w cs err client ctx wg notify sig main loop].
  unfold Inv, step, step_main, step_loop, Subscribe_prologue, exec.
  simpl. intros HI HS Hstep.
  destruct l, main, loop; simpl in *;
    repeat (case_match; simplify_eq/=); simplify_eq/=;
    rewrite ?orb_false_r, ?orb_true_r; naive_solver.
Qed.

Local Abbreviation past_gate s :=
  match st_main s with
  | M_Notify | M_RecvSig | M_Cancel | M_Wait | M_Close => True
  | M_Return _ => st_loop s ≠ L_Idle
  | _ => False
  end.

Local Abbreviation Gated n0 hs s :=
  (Nat.le n0 (length (chans (st_world s)))
   ∧ (hs = false →
      ∀ i : nat, Nat.le n0 i → chans (st_world s) !! i ≠ Some Closed)
   ∧ (st_loop s ≠ L_Idle →
      ∃ i : nat, ready (st_cs s) = Some i ∧ Nat.le n0 i)
   ∧ (∀ c, st_main s = M_RecvReady c → ∃ i : nat, c = Some i ∧ Nat.le n0 i)
   ∧ (past_gate s → hs = true)).

Lemma not_Closed_snoc (n0 : nat) (cl : list ChanState) :
  (∀ i : nat, (n0 ≤ i)%nat → cl !! i ≠ Some Closed) →
  ∀ i : nat, (n0 ≤ i)%nat → (cl ++ [Open]) !! i ≠ Some Closed.
Proof.
  intros Hcl i Hi.
  destruct (decide (i < length cl)%nat).
  - rewrite lookup_app_l by done. by apply Hcl.
  - rewrite lookup_app_r by lia.
    by destruct (i - length cl)%nat as [|[|?]].
Qed.

Local Ltac gate_finish hs :=
  repeat match goal with |- _ ∧ _ => split end;
  first [ lia
        | done
        | by (intros; simplify_eq; eauto using not_Closed_snoc)
        | by (exfalso; tauto)
        | by (destruct hs; naive_solver) ].

Lemma step_Gated l s s' (n0 : nat) (hs : bool) :
  Inv s → Gated n0 hs s →
  step k handler l s = Some (Running s') →
  Gated n0 (hs || is_Setup l) s'.
Proof.
  intros HI (G1 & G2 & G3 & G4 & G5) Hstep.
  destruct l as [| |h| | |]; simpl (is_Setup _);
    rewrite ?orb_false_r, ?orb_true_r.
  - (* the caller *)
    revert HI G1 G2 G3 G4 G5 Hstep.
    destruct s as [w cs err client ctx wg notify sig main loop].
    unfold Inv, step, step_main, Subscribe_prologue, exec, client_Close,
      make_chan, sarama_NewConsumerGroup, is_closed, mbind, M_bind, mret,
      M_ret; simpl.
    intros HI G1 G2 G3 G4 G5 Hstep.
    destruct main; simpl in *; repeat (case_match; simplify_eq/=);
      simplify_eq/=; rewrite ?length_app; simpl.
    all: gate_finish hs.
  - (* the loop *)
    revert HI G1 G2 G3 G4 G5 Hstep.
    destruct s as [w cs err client ctx wg notify sig main loop].
    unfold Inv, step, step_loop, exec, make_chan; simpl.
    intros HI G1 G2 G3 G4 G5 Hstep.
    destruct loop; simpl in *; repeat (case_match; simplify_eq/=);
      simplify_eq/=; rewrite ?length_app; simpl.
    all: gate_finish hs.
  - (* a hook *)
    simpl in Hstep. destruct (st_loop s) eqn:Hl; simplify_eq/=.
    unfold exec in Hstep.
    pose proof (hook_quiet h (st_cs s) (st_world s)) as (_ & _ & _ & _ & Hch).
    destruct h as [session|session claim|session]; simpl (is_Setup _) in *;
      rewrite ?orb_false_r, ?orb_true_r.
    + revert Hstep. simpl. unfold Setup, mbind, M_bind, close.
      destruct (ready (st_cs s)) as [i|] eqn:Hr; [|done].
      destruct (chans (st_world s) !! i) as [[]|]; simpl; [|done..].
      intros [= <-]. simpl. rewrite length_insert, Hl, Hr.
      repeat split; auto; done.
    + destruct (run_hook _ _ _) as [r w'|r w']; simplify_eq/=.
      rewrite Hch, Hl by done. repeat split; auto.
    + simplify_eq/=. rewrite Hl. repeat split; auto.
  - (* [client.Consume] returns *)
    simpl in Hstep. unfold exec, log_Errorf in Hstep.
    destruct (st_loop s) eqn:Hl; repeat (case_match; simplify_eq/=);
      simplify_eq/=; repeat split; auto.
  - (* a signal *)
    simpl in Hstep. destruct (st_notify s); simplify_eq/=.
    repeat split; auto.
  - (* the outside *)
    simpl in Hstep. simplify_eq/=. repeat split; auto.
Qed.

Lemma run_shutdown_invariants sched s s' (n0 : nat) (hs hg : bool) :
  Inv s → Gated n0 hs s → Signalled hg s →
  run k handler sched (Running s) = Some (Running s') →
  Gated n0 (hs || existsb is_Setup sched) s'
  ∧ Signalled (hg || existsb is_Signal sched) s'.
Proof.
  revert s hs hg. induction sched as [|l sched IH]; intros s hs hg HI HG HS.
  - intros [= <-]. simpl. by rewrite !orb_false_r.
  - intros (q & Hstep & Hrun)%run_cons_Running.
    destruct q as [s1| |];
      [|by apply run_stopped in Hrun..].
    simpl. rewrite !orb_assoc.
    apply (IH s1); [by eapply step_Inv| | |done].
    + by apply (step_Gated l s).
    + by apply (step_Signalled l s).
Qed.

(** X19.  [Subscribe] shuts down only when it has been made ready and told
    to stop: in every run in which the context is cancelled, and so in every
    run in which [Subscribe] returns after the loop has ended, sarama has
    called [Setup] and a signal has arrived. *)
Theorem Subscribe_shuts_down_only_after_Setup_and_signal
    (req : pubsub.SubscribeRequest) w sched s :
  Subscribe k req handler sched w = Some (Running s) →
  st_ctx s = true ∨ (∃ r, st_main s = M_Return r ∧ st_loop s = L_Done) →
  existsb is_Setup sched = true ∧ existsb is_Signal sched = true.
Proof.
  intros Hrun Hdown.
  destruct (run_shutdown_invariants sched (Subscribe_entry w) s
              (length (chans w)) false false)
    as [(_ & _ & _ & _ & G5) (_ & S2 & S3)]; [..|exact Hrun|].
  - unfold Inv. simpl. auto.
  - simpl. repeat split; try done.
    intros _ i Hi. by rewrite lookup_ge_None_2.
  - done.
  - simpl in *.
    destruct Hdown as [Hctx|(r & Hm & Hl)].
    + specialize (S3 Hctx). destruct (st_main s); try done; auto.
    + rewrite Hm, Hl in *. auto.
Qed.

End shutdown.

(** ** The further properties on the test double *)

Lemma getKafkaMetadata_reads_three_keys_witness :
  getKafkaMetadata Fake.adapter
    {| pubsub.Properties :=
         <["publishTopic" := "audit"]> (<["brokers" := "k1:9092"]> ∅) |}
  = getKafkaMetadata (NewKafka (H0 := Fake.api))
      {| pubsub.Properties := <["brokers" := "k1:9092"]> ∅ |}
  ∧ PublishTopic
      (getKafkaMetadata Fake.adapter
         {| pubsub.Properties :=
              <["publishTopic" := "audit"]> (<["brokers" := "k1:9092"]> ∅) |}).1
    = "".
Proof.
  apply (getKafkaMetadata_reads_three_keys Fake.adapter NewKafka).
  intros key Hin. simpl.
  repeat (apply elem_of_cons in Hin as [->|Hin]; [vm_compute; reflexivity|]).
  by apply elem_of_nil in Hin.
Defined.

Lemma Init_stores_the_resolved_lists_witness :
  let m : gmap string string :=
    <["brokers" := "k1:9092,k2:9092"]>
      (<["topics" := "orders,payments"]> (<["consumerGroup" := "g"]> ∅)) in
  Init (NewKafka (H0 := Fake.api)) {| pubsub.Properties := m |} Fake.world0
  = Ok ({| producer := Some 7%nat; topics := ["orders"; "payments"];
           consumerGroup := default "" (m !! "consumerGroup");
           brokers := ["k1:9092"; "k2:9092"] |}, None)
       {| ext := 0%nat; chans := chans Fake.world0;
          trace := trace Fake.world0
            ++ [EvNewSyncProducer ["k1:9092"; "k2:9092"]
                  {| sarama.Producer_RequiredAcks := sarama.WaitForAll;
                     sarama.Producer_Retry_Max := 5;
                     sarama.Producer_Return_Successes := true;
                     sarama.Version := sarama.Version sarama.NewConfig |}] |}.
Proof.
  intros m.
  apply (Init_stores_the_resolved_lists NewKafka m
           ["k1:9092"; "k2:9092"] ["orders"; "payments"] Fake.world0).
  - repeat constructor.
  - repeat constructor.
  - discriminate.
  - discriminate.
  - vm_compute. reflexivity.
  - vm_compute. reflexivity.
  - reflexivity.
Defined.

Lemma Init_without_brokers_asks_sarama_witness :
  ∃ (k' : Kafka) (w' : World),
    Init (NewKafka (H0 := Fake.api))
      {| pubsub.Properties := <["topics" := "orders"]> ∅ |} Fake.world0
    = Ok (k', Some "kafka: invalid configuration") w'
    ∧ ext w' = 0%nat.
Proof.
  destruct (Init_without_brokers_asks_sarama (NewKafka (H0 := Fake.api))
              {| pubsub.Properties := <["topics" := "orders"]> ∅ |}
              Fake.world0)
    as (k' & w' & Hinit & _ & Hext).
  - left. vm_compute. reflexivity.
  - exists k', w'. split; [exact Hinit | exact Hext].
Defined.

Lemma Publish_after_Init_witness :
  (Init (NewKafka (H0 := Fake.api))
     {| pubsub.Properties := <["brokers" := "k1:9092"]> ∅ |} ≫= λ r,
   Publish r.1 {| pubsub.req_Data := [Byte.x01];
                  pubsub.req_Topic := "orders" |}) Fake.world0
  = Ok None
      (@Build_World Fake.runtime Fake.api 1%nat []
         [EvNewSyncProducer ["k1:9092"]
            {| sarama.Producer_RequiredAcks := -1;
               sarama.Producer_Retry_Max := 5;
               sarama.Producer_Return_Successes := true;
               sarama.Version := (0, 8, 2, 0) |};
          EvSendMessage (7%nat : @sarama.SyncProducer Fake.runtime Fake.api)
            {| sarama.pm_Topic := "orders"; sarama.pm_Value := [Byte.x01] |}
            None]).
Proof.
  exact (Publish_after_Init (NewKafka (H0 := Fake.api))
           {| pubsub.Properties := <["brokers" := "k1:9092"]> ∅ |}
           {| pubsub.req_Data := [Byte.x01]; pubsub.req_Topic := "orders" |}
           Fake.world0 (7%nat : @sarama.SyncProducer Fake.runtime Fake.api) (0%nat : @Ext Fake.runtime) eq_refl).
Defined.

Lemma Publish_after_failed_Init_witness :
  ∃ (k' : Kafka) (w' : World),
    Publish k' {| pubsub.req_Data := [Byte.x01];
                  pubsub.req_Topic := "orders" |} w'
    = Panic nil_deref w'
    ∧ sends (trace w') = sends (trace Fake.world0).
Proof.
  eexists _, _.
  refine (proj2 (Publish_after_failed_Init
                   {| pubsub.Properties := ∅ |}
                   {| pubsub.req_Data := [Byte.x01];
                      pubsub.req_Topic := "orders" |}
                   Fake.world0 _ _ _ _)).
  vm_compute. reflexivity.
Defined.

Lemma Publish_twice_witness :
  (Publish Fake.adapter
     {| pubsub.req_Data := [Byte.x01]; pubsub.req_Topic := "" |} ≫= λ e1,
   Publish Fake.adapter
     {| pubsub.req_Data := [Byte.x02]; pubsub.req_Topic := "orders" |}
   ≫= λ e2, mret (e1, e2)) Fake.world0
  = Ok (Some "kafka: invalid topic", None)
      (@Build_World Fake.runtime Fake.api 1%nat []
         [EvSendMessage (7%nat : @sarama.SyncProducer Fake.runtime Fake.api)
            {| sarama.pm_Topic := ""; sarama.pm_Value := [Byte.x01] |}
            (Some "kafka: invalid topic");
          EvSendMessage (7%nat : @sarama.SyncProducer Fake.runtime Fake.api)
            {| sarama.pm_Topic := "orders"; sarama.pm_Value := [Byte.x02] |}
            None]).
Proof.
  exact (Publish_twice Fake.adapter (7%nat : @sarama.SyncProducer Fake.runtime Fake.api)
           {| pubsub.req_Data := [Byte.x01]; pubsub.req_Topic := "" |}
           {| pubsub.req_Data := [Byte.x02]; pubsub.req_Topic := "orders" |}
           Fake.world0 eq_refl).
Defined.

Lemma ConsumeClaim_calls_handler_once_per_record_witness :
  ∃ w' evs,
    ConsumeClaim Fake.picky_consumer Fake.session Fake.orders Fake.world0
    = Ok None w'
    ∧ (callbacks evs).*1
      = [ {| pubsub.msg_Data := [Byte.x01]; pubsub.msg_Topic := "orders" |};
          {| pubsub.msg_Data := []; pubsub.msg_Topic := "orders" |};
          {| pubsub.msg_Data := [Byte.x02; Byte.x03];
             pubsub.msg_Topic := "orders" |} ].
Proof.
  destruct (ConsumeClaim_calls_handler_once_per_record Fake.picky_consumer
              Fake.picky Fake.session Fake.orders Fake.world0 eq_refl)
    as (w' & evs & E & _ & C).
  exists w', evs. split; [exact E | exact C].
Defined.

Lemma ConsumeClaim_marks_the_successes_in_order_witness :
  ∃ w' evs,
    ConsumeClaim Fake.picky_consumer Fake.session Fake.orders Fake.world0
    = Ok None w'
    ∧ trace w' = trace Fake.world0 ++ evs
    ∧ length (callbacks evs) = 3%nat.
Proof.
  destruct (ConsumeClaim_marks_the_successes_in_order Fake.picky_consumer
              Fake.picky Fake.session Fake.orders Fake.world0 eq_refl)
    as (w' & evs & E & T & L & _).
  exists w', evs. split; [exact E|]. split; [exact T | exact L].
Defined.

Lemma ConsumeClaim_all_or_nothing_witness :
  ∃ w' evs,
    ConsumeClaim Fake.picky_consumer Fake.session
      {| sarama.claim_Topic := "orders";
         sarama.claim_Messages :=
           [Fake.record 0 [Byte.x01]; Fake.record 1 [Byte.x02]] |}
      Fake.world0 = Ok None w'
    ∧ trace w' = trace Fake.world0 ++ evs
    ∧ marks evs
      = [(Fake.record 0 [Byte.x01], ""); (Fake.record 1 [Byte.x02], "")].
Proof.
  destruct (ConsumeClaim_all_or_nothing Fake.picky_consumer Fake.picky
              Fake.session
              {| sarama.claim_Topic := "orders";
                 sarama.claim_Messages :=
                   [Fake.record 0 [Byte.x01]; Fake.record 1 [Byte.x02]] |}
              Fake.world0 eq_refl) as [Haccepted _].
  apply Haccepted. intros m e Hin. simpl in Hin.
  repeat (apply elem_of_cons in Hin as [->|Hin]; [reflexivity|]).
  by apply elem_of_nil in Hin.
Defined.

Lemma Subscribe_returns_the_construction_error_witness :
  ∃ s,
    Subscribe (NewKafka (H0 := Fake.api)) Fake.request None [Main]
      Fake.world0 = Some (Running s)
    ∧ st_main s = M_Return (Some "kafka: invalid configuration")
    ∧ st_loop s = L_Idle.
Proof.
  destruct (Subscribe_returns_the_construction_error
              (NewKafka (H0 := Fake.api)) None Fake.request Fake.world0
              (None : option (@sarama.ConsumerGroup Fake.runtime Fake.api))
              ("kafka: invalid configuration" : @error Fake.runtime)
              (0%nat : @Ext Fake.runtime) eq_refl)
    as (s & Hrun & Hmain & Hloop & _).
  exists s. split; [exact Hrun|]. split; [exact Hmain | exact Hloop].
Defined.

Lemma Subscribe_consumes_the_adapters_topics_witness :
  ∃ p (n : nat),
    Subscribe Fake.adapter Fake.request None
      (Fake.broker_down ++ [Loop; Loop; Loop]) Fake.world0 = Some p
    ∧ consumed (trace (proc_world p))
      = consumed (trace Fake.world0) ++ replicate n ["orders"].
Proof.
  eexists.
  assert (Subscribe Fake.adapter Fake.request None
            (Fake.broker_down ++ [Loop; Loop; Loop]) Fake.world0
          = Some _) as Hp by (vm_compute; reflexivity).
  destruct (Subscribe_consumes_the_adapters_topics Fake.adapter None
              Fake.request Fake.world0 _ _ Hp) as [(n & Hc & _) _].
  exists n. split; [exact Hp | exact Hc].
Defined.

Lemma Subscribe_closes_once_witness :
  ∃ s,
    Subscribe Fake.adapter Fake.request (Some Fake.picky) Fake.eventful
      Fake.world0 = Some (Running s)
    ∧ closes (trace (st_world s)) = [Some "kafka: close failed"].
Proof.
  eexists.
  assert (Subscribe Fake.adapter Fake.request (Some Fake.picky)
            Fake.eventful Fake.world0 = Some (Running _)) as Hs
    by (vm_compute; reflexivity).
  split; [exact Hs|].
  exact (Subscribe_closes_once Fake.adapter (Some Fake.picky) Fake.request
           Fake.world0 Fake.eventful _ Hs).
Defined.

Lemma consume_loop_retries_without_bound_witness :
  ∃ s,
    Subscribe Fake.adapter Fake.request None
      (Main :: rounds 3 (Some "kafka: broker down")) Fake.world0
    = Some (Running s)
    ∧ Consume_calls (trace (st_world s)) = 3%nat
    ∧ returned (Running s) = None.
Proof.
  destruct (consume_loop_retries_without_bound Fake.adapter None
              Fake.request Fake.world0 (9%nat : @sarama.ConsumerGroup Fake.runtime Fake.api)
              (0%nat : @Ext Fake.runtime) 3 "kafka: broker down" eq_refl)
    as (s & Hrun & Hcalls & _ & _ & Hret).
  exists s. split; [exact Hrun|]. split; [exact Hcalls | exact Hret].
Defined.

Lemma Subscribe_waits_for_ever_on_a_stale_gate_witness :
  ∃ p,
    Subscribe Fake.adapter Fake.request None
      ([Main; Main; Loop; ConsumeReturn (Some "kafka: broker down");
        Loop; Loop]
       ++ [Loop; Hook (CallSetup Fake.session); ConsumeReturn None; Loop;
           Loop])
      Fake.world0 = Some p
    ∧ returned p = None.
Proof.
  eexists.
  assert (Subscribe Fake.adapter Fake.request None
            ([Main; Main; Loop; ConsumeReturn (Some "kafka: broker down");
              Loop; Loop]
             ++ [Loop; Hook (CallSetup Fake.session); ConsumeReturn None;
                 Loop; Loop])
            Fake.world0 = Some _) as Hp by (vm_compute; reflexivity).
  split; [exact Hp|].
  exact (Subscribe_waits_for_ever_on_a_stale_gate Fake.adapter None
           Fake.request Fake.world0 (9%nat : @sarama.ConsumerGroup Fake.runtime Fake.api)
           (0%nat : @Ext Fake.runtime) _ _ _ eq_refl Hp).
Defined.

Lemma every_Consume_starts_with_an_unreleased_gate_witness :
  ∃ s s1 s2,
    Subscribe Fake.adapter Fake.request None
      (Fake.broker_down ++ [Loop; Loop]) Fake.world0 = Some (Running s)
    ∧ step Fake.adapter None Loop s = Some (Running s1)
    ∧ step Fake.adapter None (Hook (CallSetup Fake.session)) s1
      = Some (Running s2)
    ∧ is_closed (ready (st_cs s2)) (st_world s2) = true.
Proof.
  eexists.
  assert (Subscribe Fake.adapter Fake.request None
            (Fake.broker_down ++ [Loop; Loop]) Fake.world0
          = Some (Running _)) as Hs by (vm_compute; reflexivity).
  destruct (every_Consume_starts_with_an_unreleased_gate Fake.adapter None
              Fake.request Fake.world0 _ _ (9%nat : @sarama.ConsumerGroup Fake.runtime Fake.api)
              Hs eq_refl eq_refl Fake.session)
    as (s1 & s2 & Hstep1 & _ & Hstep2 & Hclosed & _).
  exists s1, s2.
  split; [exact Hs|]. split; [exact Hstep1|].
  split; [exact Hstep2 | exact Hclosed].
Defined.

Lemma Subscribe_shuts_down_only_after_Setup_and_signal_witness :
  ∃ s,
    Subscribe Fake.adapter Fake.request None Fake.cancelled Fake.world0
    = Some (Running s)
    ∧ st_ctx s = true
    ∧ existsb is_Setup Fake.cancelled = true
    ∧ existsb is_Signal Fake.cancelled = true.
Proof.
  eexists.
  assert (Subscribe Fake.adapter Fake.request None Fake.cancelled
            Fake.world0 = Some (Running _)) as Hs
    by (vm_compute; reflexivity).
  split; [exact Hs|]. split; [reflexivity|].
  exact (Subscribe_shuts_down_only_after_Setup_and_signal Fake.adapter None
           Fake.request Fake.world0 Fake.cancelled _ Hs
           (or_introl eq_refl)).
Defined.
